(** * Resume analyzer: extraction and matching logic

    A shallow embedding of [resume_logic.py] (reading an upload, field
    extraction, skill tokenization, skill-gap detection, the static role
    tables) and of the places of [App.py] that compute rather than
    display: the handler of Start Analysis with its similarity score, the
    skill-gap list of the dashboard and the admin panel.

    A Python [str] is a sequence of Unicode code points; it is modelled as
    a list of code points ([N]).  The regular expressions of the source are
    translated into backtracking matchers with the preference order of
    Python's [re] (leftmost match, greedy repetition that backs off one
    repetition at a time). *)

From Stdlib Require Import Strings.Ascii Strings.String.
From Stdlib Require Import List Bool Arith NArith ZArith QArith Qabs Qpower Lia Lqa.
From Stdlib Require Import Sorting.Permutation.
Import ListNotations.
Close Scope Q_scope.

Set Implicit Arguments.

(** ** Python strings *)

Module PyStr.

Definition char := N.
Definition str := list char.

(** The code point of an ASCII character and the [str] of a literal. *)
Definition cp (a : ascii) : char := N_of_ascii a.
Definition lit (s : string) : str := map cp (list_ascii_of_string s).

Definition in_range (lo hi : ascii) (c : char) : bool :=
  (cp lo <=? c)%N && (c <=? cp hi)%N.

Definition is_char (a : ascii) (c : char) : bool := (c =? cp a)%N.

Definition is_ascii (c : char) : bool := (c <? 128)%N.

Definition ascii_upper (c : char) : bool := in_range "A" "Z" c.
Definition ascii_lower (c : char) : bool := in_range "a" "z" c.
Definition ascii_digit (c : char) : bool := in_range "0" "9" c.
Definition ascii_alnum (c : char) : bool :=
  ascii_upper c || ascii_lower c || ascii_digit c.

(** [str.isspace] for one character: the white-space code points of the
    Unicode character database (bidirectional class WS, B or S, or
    category Zs).  The list is short and stable, so it is written out. *)
Definition isspace (c : char) : bool :=
  ((9 <=? c) && (c <=? 13) || (28 <=? c) && (c <=? 32)
   || (c =? 133) || (c =? 160) || (c =? 5760)
   || (8192 <=? c) && (c <=? 8202)
   || (c =? 8232) || (c =? 8233) || (c =? 8239) || (c =? 8287)
   || (c =? 12288))%N.

(** Lowercasing of one ASCII character: [A-Z] move down by 32. *)
Definition to_lower_ascii (c : char) : char :=
  if ascii_upper c then (c + 32)%N else c.

Fixpoint eqb (s t : str) : bool :=
  match s, t with
  | [], [] => true
  | c :: s', d :: t' => (c =? d)%N && eqb s' t'
  | _, _ => false
  end.

(** [s.strip()]: white space removed at both ends. *)
Fixpoint lstrip (s : str) : str :=
  match s with
  | c :: s' => if isspace c then lstrip s' else s
  | [] => []
  end.

Definition rstrip (s : str) : str := rev (lstrip (rev s)).
Definition strip (s : str) : str := rstrip (lstrip s).

(** [x in l] on a list of strings. *)
Definition mem (s : str) (l : list str) : bool := existsb (eqb s) l.

(** [list(set(l))]: the distinct elements of [l].  Python leaves the
    iteration order of a set unspecified; the order chosen here is the
    order of last occurrence and no statement below depends on it. *)
Fixpoint distinct (l : list str) : list str :=
  match l with
  | [] => []
  | s :: l' => if mem s l' then distinct l' else s :: distinct l'
  end.

(** [s.endswith(suffix)]. *)
Definition endswith (s suffix : str) : bool :=
  eqb (skipn (length s - length suffix) s) suffix.

(** [sep.join(l)]. *)
Fixpoint join (sep : str) (l : list str) : str :=
  match l with
  | [] => []
  | [s] => s
  | s :: l' => s ++ sep ++ join sep l'
  end.

End PyStr.

(** ** The part of the Unicode character database the code consults

    [str.lower], and the classes [\w], [\d] and [\b] of [re] on [str]
    patterns, read the Unicode character database of the interpreter.  On
    code points below 128 their values are written out here; above, they
    are the fields of a [ucd], which the extraction functions take as an
    argument.  As in CPython, [str.lower] of a string of ASCII characters
    is the character-wise ASCII mapping, and only a string with some other
    character goes through the case mapping of the database (which may
    change the length of the string). *)

Record ucd : Type := Ucd {
  uni_alnum : PyStr.char -> bool;      (* str.isalnum of one character *)
  uni_decimal : PyStr.char -> bool;    (* str.isdecimal of one character *)
  uni_lower : PyStr.str -> PyStr.str   (* str.lower of a string *)
}.

Module Py.
Import PyStr.

Section Database.
Variable db : ucd.

(** [\w]: alphanumeric or underscore. *)
Definition is_word (c : char) : bool :=
  if is_ascii c then ascii_alnum c || is_char "_" c else uni_alnum db c.

(** [\d]: a decimal digit. *)
Definition is_digit (c : char) : bool :=
  if is_ascii c then ascii_digit c else uni_decimal db c.

(** [text.lower()]. *)
Definition lower (s : str) : str :=
  if forallb is_ascii s then map to_lower_ascii s else uni_lower db s.

End Database.
End Py.

(** ** Regular expressions as backtracking matchers

    A matcher is run at one position of the text: it sees the character
    before the position (none at the start of the text) and the rest of
    the text, and gives the length of the match it prefers, if any.  Each
    combinator takes the matcher of the rest of the pattern as its
    continuation, so that a repetition can give characters back when the
    rest of the pattern fails. *)

Module Re.
Import PyStr.

Definition matcher := option char -> str -> option nat.

(** End of the pattern. *)
Definition accept : matcher := fun _ _ => Some 0.

(** One character of a class: [[A-Z]], [\s], [@]. *)
Definition one (cls : char -> bool) (k : matcher) : matcher :=
  fun _ s =>
    match s with
    | c :: s' => if cls c then option_map S (k (Some c) s') else None
    | [] => None
    end.

Definition exhausted (hi : option nat) : bool :=
  match hi with Some 0 => true | _ => false end.

(** Greedy repetition [cls{lo,hi}] ([hi = None]: no upper bound): one more
    character first; when the rest of the pattern fails after it, stop
    here, which is allowed once [lo] repetitions are done. *)
Fixpoint rep (cls : char -> bool) (lo : nat) (hi : option nat) (k : matcher)
    (prev : option char) (s : str) {struct s} : option nat :=
  let stop := if (lo =? 0)%nat then k prev s else None in
  match s with
  | c :: s' =>
      if cls c && negb (exhausted hi) then
        match rep cls (pred lo) (option_map pred hi) k (Some c) s' with
        | Some n => Some (S n)
        | None => stop
        end
      else stop
  | [] => stop
  end.

Definition plus (cls : char -> bool) : matcher -> matcher := rep cls 1 None.
Definition opt (cls : char -> bool) : matcher -> matcher := rep cls 0 (Some 1).

Section Database.
Variable db : ucd.

Definition word_at (c : option char) : bool :=
  match c with Some c => Py.is_word db c | None => false end.

(** [\b]: exactly one of the two neighbours is a word character; the
    outside of the text counts as a non-word character. *)
Definition boundary (k : matcher) : matcher :=
  fun prev s => if xorb (word_at prev) (word_at (hd_error s)) then k prev s else None.

End Database.

(** [re.findall(pattern, text)] for a pattern without groups: the text is
    scanned from left to right, a match is recorded and the scan resumes
    behind it ([skip] counts the characters of the last match still to be
    passed over).  None of the four patterns of the source can match the
    empty string, so an empty match is not recorded. *)
Fixpoint scan (re : matcher) (prev : option char) (skip : nat) (s : str) : list str :=
  match s with
  | [] => []
  | c :: s' =>
      match skip with
      | S k => scan re (Some c) k s'
      | O =>
          match re prev s with
          | Some (S n) => firstn (S n) s :: scan re (Some c) n s'
          | _ => scan re (Some c) 0 s'
          end
      end
  end.

Definition findall (re : matcher) (text : str) : list str := scan re None 0 text.

End Re.

(** ** Exceptions

    Indexing a list is the only operation of the extraction code that can
    raise; it is kept fallible so that the guards of the source are what
    makes the code total.  Reading an upload raises when the PDF or DOCX
    reader cannot read the file. *)

Inductive exn : Type := IndexError | ReaderError.

Inductive result (A : Type) : Type :=
| Ok (a : A)
| Raise (e : exn).

Arguments Ok {A} a.
Arguments Raise {A} e.

Definition bind {A B : Type} (m : result A) (f : A -> result B) : result B :=
  match m with
  | Ok a => f a
  | Raise e => Raise e
  end.

Notation "x <- m ;; k" := (bind m (fun x => k))
  (at level 61, m at next level, right associativity).

(** [l[i]]. *)
Definition getitem {A : Type} (l : list A) (i : nat) : result A :=
  match nth_error l i with
  | Some a => Ok a
  | None => Raise IndexError
  end.

(** Truth value of a list: non-empty. *)
Definition truthy {A : Type} (l : list A) : bool :=
  match l with [] => false | _ :: _ => true end.

(** ** resume_logic.py *)

Module ResumeLogic.
Import PyStr Re.

(** An uploaded file: its name and its bytes. *)
Record upload : Type := Upload {
  file_name : str;
  file_bytes : list N
}.

(** The libraries behind [extract_text]: the texts of the pages of a PDF
    ([page.extract_text() for page in PyPDF2.PdfReader(file).pages]), the
    text of a DOCX ([docx2txt.process(file)]), both of which can raise,
    and [bytes.decode('utf-8', errors='ignore')]. *)
Record readers : Type := Readers {
  pdf_pages : list N -> result (list str);
  docx_text : list N -> result str;
  utf8_ignore : list N -> str
}.

Definition extract_text (rd : readers) (file : upload) : result str :=
  if endswith (file_name file) (lit ".pdf") then
    pages <- pdf_pages rd (file_bytes file) ;;
    Ok (concat pages)
  else if endswith (file_name file) (lit ".docx") then
    docx_text rd (file_bytes file)
  else Ok (utf8_ignore rd (file_bytes file)).

(** [[A-Za-z\#\+]] *)
Definition skill_char (c : char) : bool :=
  ascii_upper c || ascii_lower c || is_char "#" c || is_char "+" c.

(** [[\d\s\-\(\)]] *)
Definition phone_char (db : ucd) (c : char) : bool :=
  Py.is_digit db c || isspace c || is_char "-" c || is_char "(" c || is_char ")" c.

(** [[\w\.-]] *)
Definition email_char (db : ucd) (c : char) : bool :=
  Py.is_word db c || is_char "." c || is_char "-" c.

(** [[A-Z][a-z]+\s[A-Z][a-z]+] *)
Definition name_re : matcher :=
  one ascii_upper (plus ascii_lower (one isspace
    (one ascii_upper (plus ascii_lower accept)))).

(** [[\w\.-]+@[\w\.-]+\.\w+] *)
Definition email_re (db : ucd) : matcher :=
  plus (email_char db) (one (is_char "@") (plus (email_char db)
    (one (is_char ".") (plus (Py.is_word db) accept)))).

(** [\+?\d[\d\s\-\(\)]{8,}\d] *)
Definition phone_re (db : ucd) : matcher :=
  opt (is_char "+") (one (Py.is_digit db) (rep (phone_char db) 8 None
    (one (Py.is_digit db) accept))).

(** [\b[A-Za-z\#\+]{2,15}\b] *)
Definition skill_re (db : ucd) : matcher :=
  boundary db (rep skill_char 2 (Some 15) (boundary db accept)).

Record details : Type := Details {
  Name : str;
  Email : str;
  Phone : str;
  Skills : list str
}.

Definition extract_candidate_details (db : ucd) (text : str) : result details :=
  let name := findall name_re text in
  let email := findall (email_re db) text in
  let phone := findall (phone_re db) text in
  let skills := findall (skill_re db) (Py.lower db text) in
  n <- (if truthy name then getitem name 0 else Ok (lit "Unknown")) ;;
  e <- (if truthy email then getitem email 0 else Ok (lit "Not Found")) ;;
  p <- (if truthy phone then getitem phone 0 else Ok (lit "Not Found")) ;;
  Ok {| Name := n; Email := e; Phone := p; Skills := distinct skills |}.

Definition extract_skills_from_jd (db : ucd) (jd_text : str) : list str :=
  map (fun s => strip (Py.lower db s)) (findall (skill_re db) jd_text).

Definition detect_skill_gaps (jd_skills resume_skills : list str) : list str * list str :=
  let matched := filter (fun s => mem s resume_skills) jd_skills in
  let gaps := filter (fun s => negb (mem s resume_skills)) jd_skills in
  (matched, gaps).

Definition JOB_CATEGORIES : list (str * list str) :=
  [ (lit "Software Development",
      [lit "Frontend Developer"; lit "Backend Developer"; lit "Full Stack Developer"]);
    (lit "Data & Analytics", [lit "Data Scientist"; lit "Data Analyst"]);
    (lit "Cloud & DevOps", [lit "DevOps Engineer"; lit "Cloud Engineer"]) ].

Definition ROLE_SKILLS : list (str * str) :=
  [ (lit "Frontend Developer", lit "HTML CSS JavaScript React UI UX");
    (lit "Backend Developer", lit "Python Django Flask SQL APIs");
    (lit "Full Stack Developer", lit "HTML CSS JS Node React Python SQL");
    (lit "Data Scientist", lit "Python SQL Machine Learning Statistics Pandas Numpy");
    (lit "DevOps Engineer", lit "AWS Docker Kubernetes Linux CI/CD");
    (lit "Cloud Engineer", lit "AWS Azure GCP Terraform DevOps") ].

(** [d.get(key, default)] *)
Fixpoint dict_get {V : Type} (d : list (str * V)) (key : str) (default : V) : V :=
  match d with
  | [] => default
  | (k, v) :: d' => if eqb k key then v else dict_get d' key default
  end.

End ResumeLogic.

(** An excerpt of the Unicode character database, for running the code on
    concrete texts: the rows of U+212A KELVIN SIGN (an uppercase letter
    whose lowercase mapping is U+006B, the ASCII letter k).  A text run
    with it holds ASCII characters and U+212A only. *)
Module UcdExcerpt.
Import PyStr.

Definition kelvin : char := 8490%N.

Definition lower_char (c : char) : char :=
  if (c =? kelvin)%N then cp "k" else to_lower_ascii c.

Definition excerpt : ucd :=
  {| uni_alnum := fun c => (c =? kelvin)%N;
     uni_decimal := fun _ => false;
     uni_lower := map lower_char |}.

End UcdExcerpt.

(** ** Binary64 numbers

    A Python [float] is a binary64 number: a rational that binary64
    represents, an infinity or a NaN (the two zeros are not told apart).
    A result is the rational result rounded to the nearest binary64
    number, a tie going to the even significand; precision 53 bits, least
    exponent -1074, overflow to infinity from [2 ^ 1024] on. *)

Module Float.

Inductive float : Type :=
| Finite (q : Q)
| Infinity (negative : bool)
| NaN.

(** The integer nearest to [q], a tie going to the even one. *)
Definition round_half_even (q : Q) : Z :=
  let n := Qnum q in
  let d := Z.pos (Qden q) in
  let f := (n / d)%Z in
  let r := (2 * (n mod d))%Z in
  if (r <? d)%Z then f
  else if (d <? r)%Z then (f + 1)%Z
  else if Z.even f then f else (f + 1)%Z.

Definition is_neg (q : Q) : bool := negb (Qle_bool 0 q).

(** The binary exponent of a positive rational: the [k] with
    [2 ^ k <= a < 2 ^ (k + 1)]. *)
Definition ilog2 (a : Q) : Z :=
  let k := (Z.log2 (Qnum a) - Z.log2 (Z.pos (Qden a)))%Z in
  if Qle_bool (2 ^ k) a then k else (k - 1)%Z.

(** The binary64 number nearest to [a >= 0]; [None] on overflow. *)
Definition nearest_abs (a : Q) : option Q :=
  if Qle_bool a 0 then Some 0%Q
  else
    let e := Z.max (ilog2 a - 52) (-1074) in
    let y := (inject_Z (round_half_even (a / 2 ^ e)) * 2 ^ e)%Q in
    if Qle_bool (2 ^ 1024) y then None else Some y.

(** The binary64 number nearest to [x]. *)
Definition nearest (x : Q) : float :=
  match nearest_abs (Qabs x) with
  | Some y => Finite (if is_neg x then - y else y)%Q
  | None => Infinity (is_neg x)
  end.

(** [x * y] *)
Definition mul (x y : float) : float :=
  match x, y with
  | NaN, _ | _, NaN => NaN
  | Finite a, Finite b => nearest (a * b)
  | Infinity s, Infinity t => Infinity (xorb s t)
  | Infinity s, Finite b | Finite b, Infinity s =>
      if Qeq_bool b 0 then NaN else Infinity (xorb s (is_neg b))
  end.

(** [round(x, ndigits)] for [ndigits >= 0]: the decimal with [ndigits]
    places nearest to the exact value of [x], a tie going to the even
    last digit, read back as a binary64 number; infinities and NaN are
    returned as they are. *)
Definition round (x : float) (ndigits : nat) : float :=
  match x with
  | Finite q =>
      let p := Z.to_pos (10 ^ Z.of_nat ndigits) in
      nearest (Qmake (round_half_even (q * inject_Z (Z.pos p))) p)
  | _ => x
  end.

End Float.

(** ** App.py *)

Module App.
Import PyStr ResumeLogic.

(** *** Upload & Analyze: the handler of Start Analysis (lines 147 to 205) *)

(** A row of the table [candidates] (the [id] column is the position of
    the row) and a row of the table shown on the page. *)
Record candidate : Type := Candidate {
  name : str;
  email : str;
  phone : str;
  filename : str;
  job_category : str;
  role : str;
  similarity : Float.float;
  matched_skills : str;
  skill_gaps : str
}.

Record ranked : Type := Ranked {
  r_Name : str;
  r_Email : str;
  r_Phone : str;
  r_Resume : str;
  r_Similarity : Float.float;
  r_Matched_Skills : str;
  r_Skill_Gaps : str
}.

(** What the handler leaves on the page: the warning of an empty upload,
    the warning that no resume was valid, or the ranked table, which is
    also what the session keeps for the dashboard. *)
Inductive view : Type :=
| please_upload
| no_valid_resumes
| ranked_table (df : list ranked).

(** A step of the handler works on the stored table and returns a value
    or raises; the rows stored before an exception stay stored, as every
    [save_to_db] commits. *)
Definition M (A : Type) : Type := list candidate -> list candidate * result A.

Definition ret {A : Type} (a : A) : M A := fun store => (store, Ok a).

Definition lift {A : Type} (r : result A) : M A := fun store => (store, r).

Definition bind_m {A B : Type} (m : M A) (f : A -> M B) : M B :=
  fun store =>
    match m store with
    | (store', Ok a) => f a store'
    | (store', Raise e) => (store', Raise e)
    end.

Notation "x <~ m ;; k" := (bind_m m (fun x => k))
  (at level 61, m at next level, right associativity).

(** [save_to_db]: the row is appended to the table. *)
Definition save_to_db (data : candidate) : M unit :=
  fun store => (store ++ [data], Ok tt).

Section Collaborators.

(** The readers behind [extract_text] and the character database. *)
Variable rd : readers.
Variable db : ucd.

(** The embedding collaborator:
    [util.cos_sim(model.encode(jd_text), model.encode(text)).item()]. *)
Variable cos_sim : str -> str -> Float.float.

(** The table collaborator:
    [pd.DataFrame(results).sort_values("Similarity", ascending=False)]. *)
Variable sort_values : list ranked -> list ranked.

(** The body of the loop (lines 160 to 188) for one file: [results]
    before and after it. *)
Definition analyze_file (category role_ jd_text : str) (jd_skills : list str)
    (results : list ranked) (file : upload) : M (list ranked) :=
  text <~ lift (extract_text rd file) ;;
  if truthy (strip text) then
    let similarity := cos_sim jd_text text in
    info <~ lift (extract_candidate_details db text) ;;
    let (matched, gaps) := detect_skill_gaps jd_skills (Skills info) in
    let results' :=
      results ++ [ {| r_Name := Name info;
                      r_Email := Email info;
                      r_Phone := Phone info;
                      r_Resume := file_name file;
                      r_Similarity := Float.round (Float.mul similarity (Float.Finite 100)) 2;
                      r_Matched_Skills := join (lit ", ") matched;
                      r_Skill_Gaps := join (lit ", ") gaps |} ] in
    _ <~ save_to_db
          {| name := Name info;
             email := Email info;
             phone := Phone info;
             filename := file_name file;
             job_category := category;
             role := role_;
             similarity := Float.round (Float.mul similarity (Float.Finite 100)) 2;
             matched_skills := join (lit ", ") matched;
             skill_gaps := join (lit ", ") gaps |} ;;
    ret results'
  else ret results.

(** The loop over the uploaded files (line 159). *)
Fixpoint for_each (category role_ jd_text : str) (jd_skills : list str)
    (uploaded_files : list upload) (results : list ranked) : M (list ranked) :=
  match uploaded_files with
  | [] => ret results
  | file :: rest =>
      results' <~ analyze_file category role_ jd_text jd_skills results file ;;
      for_each category role_ jd_text jd_skills rest results'
  end.

(** The handler. *)
Definition analysis (category role_ : str) (uploaded_files : list upload) : M view :=
  if negb (truthy uploaded_files) then ret please_upload
  else
    let jd_text := dict_get ROLE_SKILLS role_ [] in
    let jd_skills := extract_skills_from_jd db jd_text in
    results <~ for_each category role_ jd_text jd_skills uploaded_files [] ;;
    if truthy results then ret (ranked_table (sort_values results))
    else ret no_valid_resumes.

End Collaborators.

(** *** Admin Panel (lines 264 to 316) *)

(** What the page puts on the screen.  A chart carries the data it is
    drawn from. *)
Inductive widget : Type :=
| title (s : str)
| text_input (label : str)
| button (label : str)
| success (msg : str)
| error (msg : str)
| info (msg : str)
| markdown (s : str)
| subheader (s : str)
| dataframe (data : list candidate)
| download_button (label : str) (data : list candidate) (file : str)
| box_chart (title_ : str) (data : list candidate)
| bar_chart (title_ : str) (values : list str).

(** [s.split(",")] *)
Fixpoint split_comma (acc s : str) : list str :=
  match s with
  | [] => [rev acc]
  | c :: s' => if is_char "," c then rev acc :: split_comma [] s' else split_comma (c :: acc) s'
  end.

(** Lines 297 to 301. *)
Definition gap_skills_of (data : list candidate) : list str :=
  flat_map (fun row =>
    flat_map (fun skill => if truthy (strip skill) then [strip skill] else [])
      (split_comma [] (skill_gaps row))) data.

(** Dashboard, line 238: the skill gaps of the table kept by the last
    analysis ([df], the sorted table),
    [[gap.strip() for gaps in df["Skill Gaps"] for gap in gaps.split(",")
    if gap.strip()]]. *)
Definition all_gaps_of (df : list ranked) : list str :=
  flat_map (fun gaps =>
    flat_map (fun gap => if truthy (strip gap) then [strip gap] else [])
      (split_comma [] gaps)) (map r_Skill_Gaps df).

(** [load_all_data]: every row of the table. *)
Definition load_all_data (store : list candidate) : list candidate := store.

(** One run of the page: the table, what was typed into the two fields
    and whether the Login button was pressed; the table afterwards and
    the widgets drawn. *)
Definition admin_panel (store : list candidate) (username password : str)
    (login : bool) : list candidate * list widget :=
  let page :=
    [ title (lit "Recruiter Admin Panel");
      text_input (lit "Admin Username");
      text_input (lit "Password");
      button (lit "Login") ] in
  if login then
    if eqb username (lit "admin") && eqb password (lit "12345") then
      let data := load_all_data store in
      let shown :=
        if negb (truthy data) then [ info (lit "No candidate data available yet.") ]
        else
          let gap_skills := gap_skills_of data in
          [ subheader (lit "All Candidate Data");
            dataframe data;
            download_button (lit "Download Full Report (CSV)") data
              (lit "all_candidates_report.csv");
            markdown (lit "---");
            subheader (lit "Analytics Overview");
            box_chart (lit "Role-wise Candidate Score Distribution") data ]
          ++ (if truthy gap_skills
              then [ bar_chart (lit "Most Common Skill Gaps (All Candidates)") gap_skills ]
              else []) in
      (store, page ++ [ success (lit "Logged in successfully!"); markdown (lit "---") ] ++ shown)
    else (store, page ++ [ error (lit "Invalid credentials. Try again.") ])
  else (store, page).

(** The widgets that show rows of the table or values taken from them. *)
Definition shows_data (w : widget) : bool :=
  match w with
  | dataframe _ | download_button _ _ _ | box_chart _ _ | bar_chart _ _ => true
  | _ => false
  end.

End App.

(** Collaborators for running the handler on concrete uploads: readers
    for plain text files of ASCII bytes (on such bytes the UTF-8 decoding
    gives the same code points; the two document readers refuse every
    file), and a sort of the table by similarity, largest first. *)
Module Instances.
Import PyStr ResumeLogic.

Definition text_readers : readers :=
  {| pdf_pages := fun _ => Raise ReaderError;
     docx_text := fun _ => Raise ReaderError;
     utf8_ignore := filter is_ascii |}.

(** [x >= y] as the sort needs it, NaN behind every number. *)
Definition geb (x y : Float.float) : bool :=
  match x, y with
  | _, Float.NaN => true
  | Float.NaN, _ => false
  | Float.Infinity s, Float.Infinity t => implb s t
  | Float.Infinity s, Float.Finite _ => negb s
  | Float.Finite _, Float.Infinity t => t
  | Float.Finite a, Float.Finite b => Qle_bool b a
  end.

Fixpoint insert (r : App.ranked) (l : list App.ranked) : list App.ranked :=
  match l with
  | [] => [r]
  | r' :: l' =>
      if geb (App.r_Similarity r) (App.r_Similarity r') then r :: l
      else r' :: insert r l'
  end.

Definition sort_desc (l : list App.ranked) : list App.ranked :=
  fold_right insert [] l.

End Instances.

(** ** Notions used to state the properties *)

Module Spec.
Import PyStr.

(** [l] is [l'] with some elements left out, the others in place. *)
Inductive subsequence {A : Type} : list A -> list A -> Prop :=
| sub_nil : subsequence [] []
| sub_keep x l l' : subsequence l l' -> subsequence (x :: l) (x :: l')
| sub_drop x l l' : subsequence l l' -> subsequence l (x :: l').

(** Two lists put back together by position: where the flag is set the
    next element comes from the first list, otherwise from the second. *)
Fixpoint interleave {A : Type} (flags : list bool) (yes no : list A) : list A :=
  match flags with
  | [] => []
  | true :: flags' =>
      match yes with
      | x :: yes' => x :: interleave flags' yes' no
      | [] => []
      end
  | false :: flags' =>
      match no with
      | x :: no' => x :: interleave flags' yes no'
      | [] => []
      end
  end.

(** Two lists with the same elements. *)
Definition same_set {A : Type} (l l' : list A) : Prop := forall x, In x l <-> In x l'.

(** A capitalized word: a capital letter followed by lowercase letters. *)
Definition capitalized (w : str) : Prop :=
  exists u ls, w = u :: ls /\ ascii_upper u = true /\ ls <> [] /\ forallb ascii_lower ls = true.

(** Two consecutive capitalized words with one separator between them. *)
Definition bigram (sep : char -> bool) (m : str) : Prop :=
  exists w1 s w2, m = w1 ++ s :: w2 /\ capitalized w1 /\ sep s = true /\ capitalized w2.

(** The bigram [m] stands in [text] at position [i]. *)
Definition occurs (sep : char -> bool) (text : str) (i : nat) (m : str) : Prop :=
  bigram sep m /\ exists post, skipn i text = m ++ post.

(** [m] is the first occurrence of a bigram in [text]: none starts
    further left, and none at the same place is longer. *)
Definition first_occurrence (sep : char -> bool) (text m : str) : Prop :=
  exists i, occurs sep text i m
    /\ (forall j m', j < i -> ~ occurs sep text j m')
    /\ (forall m', occurs sep text i m' -> length m' <= length m).

(** The name of a text: its first bigram, or the sentinel when it has none. *)
Definition name_of (sep : char -> bool) (text n : str) : Prop :=
  first_occurrence sep text n
  \/ (n = lit "Unknown" /\ forall i m, ~ occurs sep text i m).

(** A token of the shape the skill pattern describes, in lowercase. *)
Definition lower_token (t : str) : Prop :=
  2 <= length t <= 15
  /\ forall c, In c t -> ascii_lower c = true \/ c = cp "#" \/ c = cp "+".

(** The character before position [j] of [s], when [prev] stands before [s]. *)
Definition before (prev : option char) (s : str) (j : nat) : option char :=
  match j with
  | O => prev
  | S j' => nth_error s j'
  end.

(** [j] repetitions are allowed by the upper bound [hi]. *)
Definition within (hi : option nat) (j : nat) : Prop :=
  match hi with
  | None => True
  | Some h => j <= h
  end.

(** A matcher that does not see the difference between a text and its
    image under the character mapping [f]. *)
Definition invariant_under (f : char -> char) (re : Re.matcher) : Prop :=
  forall prev s, re (option_map f prev) (map f s) = re prev s.

(** [s] is the score of the cosine similarity [c]: the binary64 product
    with 100, rounded to two decimals.  Both are numbers, the score is
    between -100 and 100, not negative when [c] is not, and within half a
    hundredth and [2 ^ -46] of a hundred times [c]. *)
Definition is_score (c s : Float.float) : Prop :=
  s = Float.round (Float.mul c (Float.Finite 100)) 2
  /\ exists c' s', c = Float.Finite c' /\ s = Float.Finite s'
       /\ (- (100) <= s' /\ s' <= 100)%Q
       /\ (s' - c' * 100 <= (1 # 200) + (1 # 70368744177664)
           /\ c' * 100 - s' <= (1 # 200) + (1 # 70368744177664))%Q
       /\ ((0 <= c')%Q -> (0 <= s')%Q).

(** The text read from a file (empty when the reader raises). *)
Definition text_of (rd : ResumeLogic.readers) (f : ResumeLogic.upload) : str :=
  match ResumeLogic.extract_text rd f with
  | Ok text => text
  | Raise _ => []
  end.

(** The file is analysed: its text is not empty after stripping. *)
Definition nonblank (rd : ResumeLogic.readers) (f : ResumeLogic.upload) : bool :=
  truthy (strip (text_of rd f)).

(** The files in front of the first one that cannot be read, and the
    exception that one raises. *)
Fixpoint read_prefix (rd : ResumeLogic.readers) (files : list ResumeLogic.upload)
    : list ResumeLogic.upload :=
  match files with
  | [] => []
  | f :: rest =>
      match ResumeLogic.extract_text rd f with
      | Ok _ => f :: read_prefix rd rest
      | Raise _ => []
      end
  end.

Fixpoint first_error (rd : ResumeLogic.readers) (files : list ResumeLogic.upload)
    : option exn :=
  match files with
  | [] => None
  | f :: rest =>
      match ResumeLogic.extract_text rd f with
      | Ok _ => first_error rd rest
      | Raise e => Some e
      end
  end.

(** The skill list extracted from a text. *)
Definition skills_of (db : ucd) (text : str) : list str :=
  match ResumeLogic.extract_candidate_details db text with
  | Ok d => ResumeLogic.Skills d
  | Raise _ => []
  end.

(** The record extracted from a text. *)
Definition info_of (db : ucd) (text : str) : ResumeLogic.details :=
  match ResumeLogic.extract_candidate_details db text with
  | Ok d => d
  | Raise _ => ResumeLogic.Details [] [] [] []
  end.

(** The matched skills and the skill gaps of one file against the job
    tokens. *)
Definition matched_of (rd : ResumeLogic.readers) (db : ucd) (jd_skills : list str)
    (f : ResumeLogic.upload) : list str :=
  fst (ResumeLogic.detect_skill_gaps jd_skills (skills_of db (text_of rd f))).

Definition gaps_of (rd : ResumeLogic.readers) (db : ucd) (jd_skills : list str)
    (f : ResumeLogic.upload) : list str :=
  snd (ResumeLogic.detect_skill_gaps jd_skills (skills_of db (text_of rd f))).

(** The score of one file against the role description [jd_text]. *)
Definition score_of (rd : ResumeLogic.readers) (cos_sim : str -> str -> Float.float)
    (jd_text : str) (f : ResumeLogic.upload) : Float.float :=
  Float.round (Float.mul (cos_sim jd_text (text_of rd f)) (Float.Finite 100)) 2.

(** The row shown and the row stored for one analysed file. *)
Definition shown_row (rd : ResumeLogic.readers) (db : ucd)
    (cos_sim : str -> str -> Float.float) (jd_text : str) (jd_skills : list str)
    (f : ResumeLogic.upload) : App.ranked :=
  {| App.r_Name := ResumeLogic.Name (info_of db (text_of rd f));
     App.r_Email := ResumeLogic.Email (info_of db (text_of rd f));
     App.r_Phone := ResumeLogic.Phone (info_of db (text_of rd f));
     App.r_Resume := ResumeLogic.file_name f;
     App.r_Similarity := score_of rd cos_sim jd_text f;
     App.r_Matched_Skills := join (lit ", ") (matched_of rd db jd_skills f);
     App.r_Skill_Gaps := join (lit ", ") (gaps_of rd db jd_skills f) |}.

Definition stored_row (rd : ResumeLogic.readers) (db : ucd)
    (cos_sim : str -> str -> Float.float) (category role_ jd_text : str)
    (jd_skills : list str) (f : ResumeLogic.upload) : App.candidate :=
  {| App.name := ResumeLogic.Name (info_of db (text_of rd f));
     App.email := ResumeLogic.Email (info_of db (text_of rd f));
     App.phone := ResumeLogic.Phone (info_of db (text_of rd f));
     App.filename := ResumeLogic.file_name f;
     App.job_category := category;
     App.role := role_;
     App.similarity := score_of rd cos_sim jd_text f;
     App.matched_skills := join (lit ", ") (matched_of rd db jd_skills f);
     App.skill_gaps := join (lit ", ") (gaps_of rd db jd_skills f) |}.

(** The row shown and the row stored say the same. *)
Definition agree (r : App.ranked) (c : App.candidate) : Prop :=
  App.r_Name r = App.name c /\ App.r_Email r = App.email c
  /\ App.r_Phone r = App.phone c /\ App.r_Resume r = App.filename c
  /\ App.r_Similarity r = App.similarity c
  /\ App.r_Matched_Skills r = App.matched_skills c
  /\ App.r_Skill_Gaps r = App.skill_gaps c.

(** An ASCII letter. *)
Definition letter (c : char) : bool := ascii_upper c || ascii_lower c.

(** [key] is a key of the dictionary [d]. *)
Definition has_key {V : Type} (d : list (str * V)) (key : str) : Prop :=
  exists v, In (key, v) d.

(** [m] stands in [text]. *)
Definition substring (m text : str) : Prop := exists pre post, text = pre ++ m ++ post.

End Spec.

(** * Properties *)

Import PyStr Re ResumeLogic Spec.

Unset Implicit Arguments.

(** ** Strings and membership *)

Lemma eqb_eq (s t : str) : eqb s t = true <-> s = t.
Proof.
  revert t; induction s as [|c s IH]; intros [|d t]; simpl; try (split; congruence).
  rewrite andb_true_iff, N.eqb_eq, IH. split.
  - intros [-> ->]; reflexivity.
  - intros E; injection E; auto.
Qed.

Lemma mem_In (s : str) (l : list str) : mem s l = true <-> In s l.
Proof.
  unfold mem. rewrite existsb_exists. split.
  - intros [t [Ht E]]. apply eqb_eq in E. subst; assumption.
  - intros H. exists s. split; [assumption | apply eqb_eq; reflexivity].
Qed.

Lemma mem_false (s : str) (l : list str) : mem s l = false <-> ~ In s l.
Proof.
  rewrite <- mem_In. destruct (mem s l); split; intros; congruence.
Qed.

Lemma distinct_In (s : str) (l : list str) : In s (distinct l) <-> In s l.
Proof.
  induction l as [|t l IH]; simpl; [tauto|].
  destruct (mem t l) eqn:M; simpl; rewrite IH; [|tauto].
  apply mem_In in M. split; [tauto|]. intros [->|H]; assumption.
Qed.

Lemma distinct_NoDup (l : list str) : NoDup (distinct l).
Proof.
  induction l as [|t l IH]; simpl; [constructor|].
  destruct (mem t l) eqn:M; [assumption|].
  constructor; [|assumption]. rewrite distinct_In. apply mem_false; assumption.
Qed.

(** ** Skill-gap detection *)

Section Gaps.
Variables jd_skills resume_skills : list str.

Let matched := fst (detect_skill_gaps jd_skills resume_skills).
Let gaps := snd (detect_skill_gaps jd_skills resume_skills).

Lemma matched_In (s : str) : In s matched <-> In s jd_skills /\ In s resume_skills.
Proof.
  unfold matched, detect_skill_gaps; simpl. rewrite filter_In, mem_In. tauto.
Qed.

Lemma gaps_In (s : str) : In s gaps <-> In s jd_skills /\ ~ In s resume_skills.
Proof.
  unfold gaps, detect_skill_gaps; simpl.
  rewrite filter_In, negb_true_iff, mem_false. tauto.
Qed.

End Gaps.

Lemma filter_subsequence {A : Type} (f : A -> bool) (l : list A) :
  subsequence (filter f l) l.
Proof.
  induction l as [|x l IH]; simpl; [constructor|].
  destruct (f x); constructor; assumption.
Qed.

Lemma interleave_filter {A : Type} (f : A -> bool) (l : list A) :
  interleave (map f l) (filter f l) (filter (fun x => negb (f x)) l) = l.
Proof.
  induction l as [|x l IH]; simpl; [reflexivity|].
  destruct (f x); simpl; rewrite IH; reflexivity.
Qed.

Lemma filter_split_length {A : Type} (f : A -> bool) (l : list A) :
  length (filter f l) + length (filter (fun x => negb (f x)) l) = length l.
Proof.
  induction l as [|x l IH]; simpl; [reflexivity|].
  destruct (f x); simpl; lia.
Qed.

(** C1. For every list of job tokens and every candidate skill set, the
    lists matched and gaps returned by [detect_skill_gaps] partition the
    job tokens as sets: together they hold exactly the job tokens, and no
    token is in both. *)
Theorem detect_skill_gaps_partition (jd_skills resume_skills : list str) :
  let (matched, gaps) := detect_skill_gaps jd_skills resume_skills in
  (forall s, In s matched \/ In s gaps <-> In s jd_skills)
  /\ (forall s, ~ (In s matched /\ In s gaps)).
Proof.
  pose proof (matched_In jd_skills resume_skills) as M.
  pose proof (gaps_In jd_skills resume_skills) as G.
  destruct (detect_skill_gaps jd_skills resume_skills) as [matched gaps]; simpl in M, G.
  split; intros s; rewrite M, G; [|tauto].
  destruct (in_dec (list_eq_dec N.eq_dec) s resume_skills); tauto.
Qed.

(** C4. [detect_skill_gaps] puts into matched exactly the job tokens that
    are in the candidate set and into gaps exactly those that are not;
    each of the two lists is the job token list with some tokens left out
    and the others in their original order.  On the job tokens python,
    sql, react and the candidate skills python, java it gives matched =
    python and gaps = sql, react. *)
Theorem detect_skill_gaps_contract (jd_skills resume_skills : list str) :
  let (matched, gaps) := detect_skill_gaps jd_skills resume_skills in
  ((forall s, In s matched <-> In s jd_skills /\ In s resume_skills)
   /\ (forall s, In s gaps <-> In s jd_skills /\ ~ In s resume_skills)
   /\ subsequence matched jd_skills
   /\ subsequence gaps jd_skills)
  /\ detect_skill_gaps [lit "python"; lit "sql"; lit "react"] [lit "python"; lit "java"]
     = ([lit "python"], [lit "sql"; lit "react"]).
Proof.
  pose proof (matched_In jd_skills resume_skills) as M.
  pose proof (gaps_In jd_skills resume_skills) as G.
  unfold detect_skill_gaps in M, G; simpl in M, G.
  cbv beta iota zeta delta [detect_skill_gaps].
  split; [|reflexivity].
  split; [exact M|]. split; [exact G|].
  split; apply filter_subsequence.
Qed.

(** C9. [detect_skill_gaps] keeps multiplicity and position: every
    occurrence of a job token goes to exactly one of matched and gaps, so
    the two lengths add up to the number of job tokens, every token occurs
    in the two lists together as often as among the job tokens, and
    putting matched and gaps back together by original position gives the
    job token list again. *)
Theorem detect_skill_gaps_positions (jd_skills resume_skills : list str) :
  let (matched, gaps) := detect_skill_gaps jd_skills resume_skills in
  length matched + length gaps = length jd_skills
  /\ (forall s, count_occ (list_eq_dec N.eq_dec) matched s
                + count_occ (list_eq_dec N.eq_dec) gaps s
                = count_occ (list_eq_dec N.eq_dec) jd_skills s)
  /\ interleave (map (fun s => mem s resume_skills) jd_skills) matched gaps = jd_skills.
Proof.
  cbv beta iota zeta delta [detect_skill_gaps].
  split; [apply filter_split_length|].
  split; [|apply interleave_filter].
  intros s. induction jd_skills as [|t l IH]; simpl; [reflexivity|].
  destruct (mem t resume_skills); simpl;
    destruct (list_eq_dec N.eq_dec t s); lia.
Qed.

(** ** The matchers *)

Lemma before_cons (prev : option char) (c : char) (s : str) (j : nat) :
  before prev (c :: s) (S j) = before (Some c) s j.
Proof. destruct j; reflexivity. Qed.

Lemma within_pred (hi : option nat) (j : nat) :
  exhausted hi = false -> (within (option_map pred hi) j <-> within hi (S j)).
Proof.
  destruct hi as [[|h]|]; simpl; intros E; try discriminate; [lia | tauto].
Qed.

(** When a repetition fails, the rest of the pattern fails after every
    admissible number of repetitions. *)
Lemma rep_none (cls : char -> bool) (k : matcher) (s : str) :
  forall lo hi prev, rep cls lo hi k prev s = None ->
  forall j, lo <= j -> within hi j -> j <= length s ->
    forallb cls (firstn j s) = true ->
    k (before prev s j) (skipn j s) = None.
Proof.
  induction s as [|c s IH]; intros lo hi prev R j Hlo Hhi Hlen Hcls.
  - simpl in Hlen. assert (j = 0) by lia; subst j. assert (lo = 0) by lia; subst lo.
    exact R.
  - destruct j as [|j].
    + assert (lo = 0) by lia; subst lo. simpl in R |- *.
      destruct (cls c && negb (exhausted hi)); [|exact R].
      destruct (rep cls 0 (option_map pred hi) k (Some c) s); [discriminate | exact R].
    + simpl in Hcls, Hlen. apply andb_true_iff in Hcls as [Hc Hcls].
      rewrite before_cons. simpl skipn.
      assert (E : exhausted hi = false).
      { destruct hi as [[|h]|]; simpl in Hhi |- *; try reflexivity; lia. }
      simpl in R. rewrite Hc, E in R. simpl in R.
      destruct (rep cls (pred lo) (option_map pred hi) k (Some c) s) eqn:R'; [discriminate|].
      eapply IH; [exact R' | lia | | lia | assumption].
      apply within_pred; assumption.
Qed.

(** When a repetition succeeds, it has taken some admissible number [j]
    of characters of the class, the rest of the pattern matches behind
    them, and fails behind any larger admissible number. *)
Lemma rep_some (cls : char -> bool) (k : matcher) (s : str) :
  forall lo hi prev n, rep cls lo hi k prev s = Some n ->
  exists j m, n = j + m /\ lo <= j /\ within hi j /\ j <= length s
    /\ forallb cls (firstn j s) = true
    /\ k (before prev s j) (skipn j s) = Some m
    /\ (forall j', j < j' -> within hi j' -> j' <= length s ->
          forallb cls (firstn j' s) = true ->
          k (before prev s j') (skipn j' s) = None).
Proof.
  induction s as [|c s IH]; intros lo hi prev n R.
  - simpl in R. destruct lo; [|discriminate]. simpl in R.
    exists 0, n. repeat split; simpl; try lia; try assumption.
    destruct hi; simpl; [lia | exact I].
  - simpl in R.
    assert (Stop : (if lo =? 0 then k prev (c :: s) else None) = Some n ->
                   (forall j', within hi (S j') -> j' <= length s ->
                      forallb cls (firstn (S j') (c :: s)) = true ->
                      k (before (Some c) s j') (skipn j' s) = None) ->
                   exists j m, n = j + m /\ lo <= j /\ within hi j /\ j <= length (c :: s)
                     /\ forallb cls (firstn j (c :: s)) = true
                     /\ k (before prev (c :: s) j) (skipn j (c :: s)) = Some m
                     /\ (forall j', j < j' -> within hi j' -> j' <= length (c :: s) ->
                           forallb cls (firstn j' (c :: s)) = true ->
                           k (before prev (c :: s) j') (skipn j' (c :: s)) = None)).
    { intros St G. destruct lo; [|discriminate]. simpl in St.
      exists 0, n. repeat split; simpl; try lia; try assumption.
      - destruct hi; simpl; [lia | exact I].
      - intros [|j'] ? ? Hl Hc; [lia|]. rewrite before_cons. simpl skipn.
        apply G; try assumption. simpl in Hl; lia. }
    destruct (cls c && negb (exhausted hi)) eqn:C.
    + apply andb_true_iff in C as [Hc E]. apply negb_true_iff in E.
      destruct (rep cls (pred lo) (option_map pred hi) k (Some c) s) as [n'|] eqn:R'.
      * injection R as <-. apply IH in R' as (j & m & -> & Hlo & Hhi & Hlen & Hcls & Hk & G).
        exists (S j), m. repeat split; try (simpl; lia).
        -- apply within_pred; assumption.
        -- simpl. rewrite Hc; assumption.
        -- rewrite before_cons; exact Hk.
        -- intros [|j'] ? ? Hl Hc'; [lia|]. rewrite before_cons. simpl skipn.
           simpl in Hc', Hl. apply andb_true_iff in Hc' as [_ Hc'].
           apply G; try assumption; try lia. apply within_pred; assumption.
      * apply Stop; [exact R|]. intros j' Hw Hl Hc'.
        simpl in Hc'. apply andb_true_iff in Hc' as [_ Hc'].
        eapply rep_none; [exact R' | | | assumption | assumption].
        -- destruct lo; [simpl; lia | discriminate R].
        -- apply within_pred; assumption.
    + apply Stop; [exact R|]. intros j' Hw Hl Hc'.
      simpl in Hc'. apply andb_true_iff in Hc' as [Hc _]. rewrite Hc in C. simpl in C.
      apply negb_false_iff in C. destruct hi as [[|h]|]; simpl in C, Hw; try discriminate; lia.
Qed.

(** Every match recorded by the scan is a match of the pattern somewhere. *)
Lemma scan_In (re : matcher) (m : str) (s : str) :
  forall prev skip, In m (scan re prev skip s) ->
  exists p s' n, re p s' = Some (S n) /\ m = firstn (S n) s'.
Proof.
  induction s as [|c s IH]; intros prev skip H; simpl in H; [contradiction|].
  destruct skip as [|k]; [|eapply IH; exact H].
  destruct (re prev (c :: s)) as [[|n]|] eqn:R; try (eapply IH; exact H).
  destruct H as [<-|H]; [|eapply IH; exact H].
  exists prev, (c :: s), n. split; [assumption | reflexivity].
Qed.

(** The first match recorded by the scan is the leftmost one. *)
Lemma scan_first (re : matcher) (s : str) :
  forall prev,
  match scan re prev 0 s with
  | [] => forall i n, i < length s -> re (before prev s i) (skipn i s) <> Some (S n)
  | m :: _ => exists i n, re (before prev s i) (skipn i s) = Some (S n)
      /\ m = firstn (S n) (skipn i s)
      /\ forall j n', j < i -> re (before prev s j) (skipn j s) <> Some (S n')
  end.
Proof.
  induction s as [|c s IH]; intros prev; simpl scan.
  - intros i n H; simpl in H; lia.
  - destruct (re prev (c :: s)) as [[|n]|] eqn:R.
    + specialize (IH (Some c)). destruct (scan re (Some c) 0 s) as [|m rest].
      * intros [|i] n' Hi; [simpl; congruence|]. rewrite before_cons. simpl skipn.
        apply IH. simpl in Hi; lia.
      * destruct IH as (i & n' & Hre & Hm & Hl). exists (S i), n'.
        rewrite before_cons. simpl skipn. repeat split; try assumption.
        intros [|j] n'' Hj; [simpl; congruence|]. rewrite before_cons. simpl skipn.
        apply Hl; lia.
    + exists 0, n. simpl. repeat split; try assumption. intros j n' Hj; lia.
    + specialize (IH (Some c)). destruct (scan re (Some c) 0 s) as [|m rest].
      * intros [|i] n' Hi; [simpl; congruence|]. rewrite before_cons. simpl skipn.
        apply IH. simpl in Hi; lia.
      * destruct IH as (i & n' & Hre & Hm & Hl). exists (S i), n'.
        rewrite before_cons. simpl skipn. repeat split; try assumption.
        intros [|j] n'' Hj; [simpl; congruence|]. rewrite before_cons. simpl skipn.
        apply Hl; lia.
Qed.

(** ** Character classes *)

Ltac chars :=
  unfold skill_char, to_lower_ascii, ascii_alnum, ascii_upper, ascii_lower,
    ascii_digit, in_range, is_char, is_ascii, isspace, cp in *;
  simpl N_of_ascii in *;
  repeat (progress rewrite ?andb_true_iff, ?orb_true_iff, ?N.leb_le, ?N.ltb_lt, ?N.eqb_eq in * );
  try lia.

Lemma skill_char_ascii (c : char) : skill_char c = true -> is_ascii c = true.
Proof. intros H. chars. Qed.

Lemma upper_to_lower (c : char) :
  ascii_upper c = true -> ascii_lower (c + 32)%N = true.
Proof. intros H. chars. Qed.

Lemma skill_char_lower (c : char) :
  skill_char c = true ->
  ascii_lower (to_lower_ascii c) = true
  \/ to_lower_ascii c = cp "#" \/ to_lower_ascii c = cp "+".
Proof.
  intros H. unfold to_lower_ascii. destruct (ascii_upper c) eqn:U.
  - left. apply upper_to_lower; assumption.
  - unfold skill_char in H. rewrite U in H. chars.
Qed.

Lemma lower_token_char (c : char) :
  ascii_lower c = true \/ c = cp "#" \/ c = cp "+" ->
  isspace c = false /\ c <> cp "/".
Proof.
  intros H. split.
  - apply not_true_is_false. intros S. chars.
  - chars.
Qed.

Lemma skill_char_to_lower (c : char) : skill_char (to_lower_ascii c) = skill_char c.
Proof.
  unfold to_lower_ascii. destruct (ascii_upper c) eqn:U; [|reflexivity].
  apply eq_iff_eq_true. chars.
Qed.

Lemma is_word_to_lower (db : ucd) (c : char) :
  Py.is_word db (to_lower_ascii c) = Py.is_word db c.
Proof.
  unfold to_lower_ascii. destruct (ascii_upper c) eqn:U; [|reflexivity].
  unfold Py.is_word.
  assert (A : is_ascii c = true) by chars.
  assert (A' : is_ascii (c + 32)%N = true) by chars.
  rewrite A, A'. apply eq_iff_eq_true. chars.
Qed.

(** ** Skill tokens *)

Lemma lstrip_id (s : str) : (forall c, In c s -> isspace c = false) -> lstrip s = s.
Proof.
  destruct s as [|c s]; intros H; simpl; [reflexivity|].
  rewrite (H c); [reflexivity | left; reflexivity].
Qed.

Lemma strip_id (s : str) : (forall c, In c s -> isspace c = false) -> strip s = s.
Proof.
  intros H. unfold strip, rstrip. rewrite (lstrip_id s H).
  rewrite lstrip_id; [apply rev_involutive|].
  intros c Hc. apply H. apply in_rev; assumption.
Qed.

Lemma skill_re_shape (db : ucd) (prev : option char) (s : str) (n : nat) :
  skill_re db prev s = Some n ->
  2 <= n <= 15 /\ n <= length s /\ forallb skill_char (firstn n s) = true.
Proof.
  unfold skill_re, boundary at 1. intros H.
  destruct (xorb (word_at db prev) (word_at db (hd_error s))); [|discriminate].
  apply rep_some in H as (j & m & -> & Hlo & Hhi & Hlen & Hcls & Hk & _).
  unfold boundary, accept in Hk.
  destruct (xorb _ _) in Hk; [|discriminate]. injection Hk as <-.
  simpl in Hhi. rewrite Nat.add_0_r. repeat split; assumption.
Qed.

Lemma findall_skill_token (db : ucd) (text tok : str) :
  In tok (findall (skill_re db) text) ->
  2 <= length tok <= 15 /\ forallb skill_char tok = true.
Proof.
  intros H. apply scan_In in H as (p & s' & n & Hre & ->).
  apply skill_re_shape in Hre as (Hn & Hlen & Hcls).
  rewrite length_firstn, Nat.min_l by assumption. split; assumption.
Qed.

Lemma lower_of_token (db : ucd) (tok : str) :
  forallb skill_char tok = true -> Py.lower db tok = map to_lower_ascii tok.
Proof.
  intros H. unfold Py.lower.
  replace (forallb is_ascii tok) with true; [reflexivity|].
  symmetry. apply forallb_forall. intros c Hc.
  apply skill_char_ascii. rewrite forallb_forall in H. apply H; assumption.
Qed.

Lemma lowered_token_chars (tok : str) (c : char) :
  forallb skill_char tok = true -> In c (map to_lower_ascii tok) ->
  ascii_lower c = true \/ c = cp "#" \/ c = cp "+".
Proof.
  intros H Hc. apply in_map_iff in Hc as (c0 & <- & Hc0).
  apply skill_char_lower. rewrite forallb_forall in H. apply H; assumption.
Qed.

Lemma jd_token (db : ucd) (tok : str) :
  forallb skill_char tok = true ->
  strip (Py.lower db tok) = map to_lower_ascii tok.
Proof.
  intros H. rewrite lower_of_token by assumption. apply strip_id.
  intros c Hc. apply (lowered_token_chars tok c H) in Hc.
  apply lower_token_char in Hc. tauto.
Qed.

(** The tokens of a job description are the matches of the skill pattern
    in the order of the scan, each one lowercased. *)
Lemma extract_skills_from_jd_scan (db : ucd) (jd_text : str) :
  extract_skills_from_jd db jd_text
  = map (map to_lower_ascii) (findall (skill_re db) jd_text).
Proof.
  unfold extract_skills_from_jd. apply map_ext_in. intros tok H.
  apply jd_token. apply findall_skill_token in H. tauto.
Qed.

Lemma extract_skills_from_jd_tokens (db : ucd) (jd_text tok : str) :
  In tok (extract_skills_from_jd db jd_text) -> lower_token tok.
Proof.
  rewrite extract_skills_from_jd_scan. intros H.
  apply in_map_iff in H as (t & <- & Ht).
  apply findall_skill_token in Ht as [Hlen Hcls]. split.
  - rewrite length_map; assumption.
  - intros c. apply lowered_token_chars; assumption.
Qed.

(** ** Lowercasing an ASCII text before the scan or the matches after it *)

Lemma accept_invariant (f : char -> char) : invariant_under f accept.
Proof. intros prev s; reflexivity. Qed.

Lemma one_invariant (f : char -> char) (cls : char -> bool) (k : matcher) :
  (forall c, cls (f c) = cls c) -> invariant_under f k -> invariant_under f (one cls k).
Proof.
  intros Hc Hk prev [|c s]; simpl; [reflexivity|].
  rewrite Hc. destruct (cls c); [|reflexivity].
  rewrite <- (Hk (Some c) s). reflexivity.
Qed.

Lemma rep_invariant (f : char -> char) (cls : char -> bool) (lo : nat)
    (hi : option nat) (k : matcher) :
  (forall c, cls (f c) = cls c) -> invariant_under f k -> invariant_under f (rep cls lo hi k).
Proof.
  intros Hc Hk prev s. revert lo hi prev.
  induction s as [|c s IH]; intros lo hi prev; simpl.
  - destruct (lo =? 0); [apply (Hk prev []) | reflexivity].
  - rewrite Hc. change (Some (f c)) with (option_map f (Some c)). rewrite IH.
    change (f c :: map f s) with (map f (c :: s)). rewrite (Hk prev (c :: s)).
    reflexivity.
Qed.

Lemma boundary_invariant (db : ucd) (f : char -> char) (k : matcher) :
  (forall c, Py.is_word db (f c) = Py.is_word db c) ->
  invariant_under f k -> invariant_under f (boundary db k).
Proof.
  intros Hw Hk prev s. unfold boundary. rewrite Hk.
  replace (word_at db (option_map f prev)) with (word_at db prev)
    by (destruct prev; simpl; [rewrite Hw|]; reflexivity).
  replace (word_at db (hd_error (map f s))) with (word_at db (hd_error s))
    by (destruct s; simpl; [|rewrite Hw]; reflexivity).
  reflexivity.
Qed.

Lemma scan_invariant (f : char -> char) (re : matcher) :
  invariant_under f re ->
  forall s prev skip,
    scan re (option_map f prev) skip (map f s) = map (map f) (scan re prev skip s).
Proof.
  intros Hre. induction s as [|c s IH]; intros prev skip; simpl; [reflexivity|].
  change (Some (f c)) with (option_map f (Some c)).
  destruct skip as [|k]; [|apply IH].
  change (f c :: map f s) with (map f (c :: s)). rewrite (Hre prev (c :: s)).
  destruct (re prev (c :: s)) as [[|n]|]; try apply IH.
  simpl. change (Some (f c)) with (option_map f (Some c)).
  rewrite IH, firstn_map. reflexivity.
Qed.

Lemma skill_re_invariant (db : ucd) : invariant_under to_lower_ascii (skill_re db).
Proof.
  unfold skill_re.
  apply boundary_invariant; [apply is_word_to_lower|].
  apply rep_invariant; [apply skill_char_to_lower|].
  apply boundary_invariant; [apply is_word_to_lower | apply accept_invariant].
Qed.

(** On an ASCII text the skill list of a resume is the token list of the
    same text read as a job description. *)
Lemma findall_skill_lower (db : ucd) (text : str) :
  forallb is_ascii text = true ->
  findall (skill_re db) (Py.lower db text) = extract_skills_from_jd db text.
Proof.
  intros A. unfold Py.lower. rewrite A. rewrite extract_skills_from_jd_scan.
  unfold findall. apply (scan_invariant to_lower_ascii (skill_re db) (skill_re_invariant db) text None 0).
Qed.

(** ** Field extraction *)

Import UcdExcerpt.

Lemma extract_candidate_details_ok (db : ucd) (text : str) :
  extract_candidate_details db text
  = Ok {| Name := match findall name_re text with m :: _ => m | [] => lit "Unknown" end;
          Email := match findall (email_re db) text with m :: _ => m | [] => lit "Not Found" end;
          Phone := match findall (phone_re db) text with m :: _ => m | [] => lit "Not Found" end;
          Skills := distinct (findall (skill_re db) (Py.lower db text)) |}.
Proof.
  unfold extract_candidate_details.
  destruct (findall name_re text), (findall (email_re db) text),
    (findall (phone_re db) text); reflexivity.
Qed.

(** C6. [extract_candidate_details] returns a record on every text and
    never raises; a field for which the text has no match holds the
    sentinel: Unknown for the name, Not Found for the email and for the
    phone.  On the empty text all three fields are sentinels. *)
Theorem extract_candidate_details_total (db : ucd) (text : str) :
  (exists d, extract_candidate_details db text = Ok d
     /\ (findall name_re text = [] -> Name d = lit "Unknown")
     /\ (findall (email_re db) text = [] -> Email d = lit "Not Found")
     /\ (findall (phone_re db) text = [] -> Phone d = lit "Not Found"))
  /\ extract_candidate_details db []
     = Ok {| Name := lit "Unknown"; Email := lit "Not Found";
             Phone := lit "Not Found"; Skills := [] |}.
Proof.
  split; [|reflexivity].
  eexists. split; [apply extract_candidate_details_ok|].
  simpl. repeat split; intros ->; reflexivity.
Qed.

Lemma extract_candidate_details_total_witness :
  exists d, extract_candidate_details excerpt (lit "no fields in here") = Ok d
    /\ Name d = lit "Unknown" /\ Email d = lit "Not Found" /\ Phone d = lit "Not Found".
Proof.
  destruct (extract_candidate_details_total excerpt (lit "no fields in here"))
    as [(d & E & Hn & He & Hp) _].
  exists d. split; [exact E|].
  split; [apply Hn | split; [apply He | apply Hp]]; reflexivity.
Defined.

(** C2. Evaluation of the skill tokenization on a text that holds c# and
    c++ as words of their own: neither is in the extracted skill set.  The
    pattern asks for a word boundary behind the token, and there is none
    between [#] or [+] and a following space or the end of the text. *)
Theorem skills_without_csharp_cpp (db : ucd) :
  extract_candidate_details db (lit "skills: c# c++ python")
  = Ok {| Name := lit "Unknown"; Email := lit "Not Found"; Phone := lit "Not Found";
          Skills := [lit "skills"; lit "python"] |}
  /\ findall (skill_re db) (lit "c#") = []
  /\ findall (skill_re db) (lit "c++") = [].
Proof. repeat split; vm_compute; reflexivity. Qed.

(** C5. On every text of ASCII characters [extract_skills_from_jd] uses
    the rule of the resume skill tokenization: its result is the list of
    the matches of the skill pattern in their order in the text, each one
    lowercased and none removed, every token being 2 to 15 characters out
    of lowercase letters, [#] and [+]; the skill list that
    [extract_candidate_details] gives for the same text is this list with
    duplicates removed, so both have the same set of elements. *)
Theorem jd_tokens_same_rule (db : ucd) (text : str)
    (A : forallb is_ascii text = true) :
  extract_skills_from_jd db text
    = map (map to_lower_ascii) (findall (skill_re db) text)
  /\ Forall lower_token (extract_skills_from_jd db text)
  /\ exists d, extract_candidate_details db text = Ok d
       /\ Skills d = distinct (extract_skills_from_jd db text)
       /\ NoDup (Skills d)
       /\ same_set (extract_skills_from_jd db text) (Skills d).
Proof.
  split; [apply extract_skills_from_jd_scan|].
  split; [apply Forall_forall; intros tok; apply extract_skills_from_jd_tokens|].
  eexists. split; [apply extract_candidate_details_ok|]. simpl.
  rewrite findall_skill_lower by assumption.
  split; [reflexivity|]. split; [apply distinct_NoDup|].
  intros tok. symmetry. apply distinct_In.
Qed.

Lemma jd_tokens_same_rule_witness :
  extract_skills_from_jd excerpt (lit "SQL, Python and sql")
    = [lit "sql"; lit "python"; lit "and"; lit "sql"]
  /\ exists d, extract_candidate_details excerpt (lit "SQL, Python and sql") = Ok d
       /\ same_set (extract_skills_from_jd excerpt (lit "SQL, Python and sql")) (Skills d).
Proof.
  destruct (jd_tokens_same_rule excerpt (lit "SQL, Python and sql") eq_refl)
    as (_ & _ & d & E & _ & _ & S).
  split; [reflexivity|]. exists d. split; assumption.
Defined.

(** C5 does not hold on every text: U+212A KELVIN SIGN is a letter outside
    [A-Za-z] whose lowercase is the ASCII letter k.  In a text made of it
    and the letter b the job-description tokenization finds no token,
    while the resume tokenization lowercases first and finds kb. *)
Lemma jd_tokens_kelvin_counterexample :
  extract_skills_from_jd excerpt (kelvin :: lit "b") = []
  /\ exists d, extract_candidate_details excerpt (kelvin :: lit "b") = Ok d
       /\ Skills d = [lit "kb"]
       /\ ~ same_set (extract_skills_from_jd excerpt (kelvin :: lit "b")) (Skills d).
Proof.
  split; [reflexivity|]. eexists. split; [reflexivity|]. split; [reflexivity|].
  intros S. apply (proj2 (S (lit "kb"))). left; reflexivity.
Qed.

(** C10. A token returned by [extract_skills_from_jd] never holds a
    white-space character or a slash: a phrase of several words or joined
    by a slash comes out as one token per word.  The description of the
    Data Scientist role gives machine and learning, the one of the DevOps
    Engineer role gives ci and cd. *)
Theorem jd_tokens_single_words (db : ucd) (jd_text tok : str) (c : char)
    (Htok : In tok (extract_skills_from_jd db jd_text)) (Hc : In c tok) :
  (isspace c = false /\ c <> cp "/")
  /\ extract_skills_from_jd db (dict_get ROLE_SKILLS (lit "Data Scientist") [])
     = [lit "python"; lit "sql"; lit "machine"; lit "learning"; lit "statistics";
        lit "pandas"; lit "numpy"]
  /\ extract_skills_from_jd db (dict_get ROLE_SKILLS (lit "DevOps Engineer") [])
     = [lit "aws"; lit "docker"; lit "kubernetes"; lit "linux"; lit "ci"; lit "cd"].
Proof.
  split; [|split; vm_compute; reflexivity].
  apply lower_token_char. apply extract_skills_from_jd_tokens in Htok as [_ H].
  apply H; assumption.
Qed.

Lemma jd_tokens_single_words_witness :
  isspace (cp "c") = false /\ cp "c" <> cp "/".
Proof.
  apply (jd_tokens_single_words excerpt
           (dict_get ROLE_SKILLS (lit "DevOps Engineer") []) (lit "ci") (cp "c")).
  - vm_compute. tauto.
  - left; reflexivity.
Defined.

(** ** Name extraction *)

Lemma firstn_length_app {A : Type} (l r : list A) : firstn (length l) (l ++ r) = l.
Proof. induction l as [|x l IH]; simpl; [reflexivity | rewrite IH; reflexivity]. Qed.

Lemma skipn_length_app {A : Type} (l r : list A) : skipn (length l) (l ++ r) = r.
Proof. induction l as [|x l IH]; simpl; [reflexivity | exact IH]. Qed.

Lemma isspace_not_lower (c : char) : isspace c = true -> ascii_lower c = false.
Proof. intros H. apply not_true_is_false. intros L. chars. Qed.

(** A run of characters of a class that ends before a character outside
    the class is determined by the text. *)
Lemma run_unique (p : char -> bool) (ls ls' : str) (a a' : char) (r r' : str) :
  ls ++ a :: r = ls' ++ a' :: r' ->
  forallb p ls = true -> forallb p ls' = true -> p a = false -> p a' = false ->
  ls = ls' /\ a = a' /\ r = r'.
Proof.
  revert ls'. induction ls as [|x ls IH]; intros [|x' ls'] E H H' Ha Ha'; simpl in *.
  - injection E as -> ->. auto.
  - injection E as -> _. apply andb_true_iff in H' as [H' _]. congruence.
  - injection E as -> _. apply andb_true_iff in H as [H _]. congruence.
  - injection E as -> E. apply andb_true_iff in H as [_ H].
    apply andb_true_iff in H' as [_ H'].
    destruct (IH ls' E H H' Ha Ha') as (-> & -> & ->). auto.
Qed.

(** A run of characters of a class is at most as long as the longest one. *)
Lemma run_longest (p : char -> bool) (ls ls' r r' : str) :
  ls ++ r = ls' ++ r' -> forallb p ls' = true ->
  (forall c r0, r = c :: r0 -> p c = false) ->
  length ls' <= length ls.
Proof.
  revert ls'. induction ls as [|x ls IH]; intros [|x' ls'] E H' Hr; simpl in *; try lia.
  - apply andb_true_iff in H' as [H' _]. rewrite (Hr x' (ls' ++ r') E) in H'. discriminate.
  - injection E as _ E. apply andb_true_iff in H' as [_ H'].
    specialize (IH ls' E H' Hr). lia.
Qed.

(** What a match of the name pattern looks like. *)
Lemma name_re_match (prev : option char) (s : str) (n : nat) :
  name_re prev s = Some n ->
  exists u ls1 sp u2 ls2 post,
    s = (u :: ls1) ++ sp :: (u2 :: ls2) ++ post
    /\ n = length ((u :: ls1) ++ sp :: u2 :: ls2)
    /\ ascii_upper u = true /\ ls1 <> [] /\ forallb ascii_lower ls1 = true
    /\ isspace sp = true
    /\ ascii_upper u2 = true /\ ls2 <> [] /\ forallb ascii_lower ls2 = true
    /\ (forall c r0, post = c :: r0 -> ascii_lower c = false).
Proof.
  unfold name_re, one at 1. destruct s as [|u s1]; [discriminate|].
  destruct (ascii_upper u) eqn:U; [|discriminate].
  destruct (plus _ _ _ s1) as [n1|] eqn:P1; [|discriminate].
  simpl. intros E; injection E as <-.
  apply rep_some in P1 as (j1 & m1 & -> & Hlo1 & _ & Hlen1 & Hcls1 & Hk1 & _).
  unfold one at 1 in Hk1.
  destruct (skipn j1 s1) as [|sp t] eqn:T; [discriminate|].
  destruct (isspace sp) eqn:SP; [|discriminate].
  unfold one at 1 in Hk1. destruct t as [|u2 s2]; [discriminate|].
  destruct (ascii_upper u2) eqn:U2; [|discriminate].
  destruct (plus _ _ _ s2) as [n2|] eqn:P2; [|discriminate].
  simpl in Hk1. injection Hk1 as <-.
  apply rep_some in P2 as (j2 & m2 & -> & Hlo2 & _ & Hlen2 & Hcls2 & Hk2 & G2).
  injection Hk2 as <-.
  exists u, (firstn j1 s1), sp, u2, (firstn j2 s2), (skipn j2 s2).
  assert (L1 : length (firstn j1 s1) = j1) by (rewrite length_firstn; lia).
  assert (L2 : length (firstn j2 s2) = j2) by (rewrite length_firstn; lia).
  repeat split; try assumption.
  - simpl. f_equal. rewrite firstn_skipn. rewrite <- T. rewrite firstn_skipn. reflexivity.
  - simpl. rewrite length_app. simpl. rewrite L1, L2. lia.
  - intros E. rewrite E in L1. simpl in L1. lia.
  - intros E. rewrite E in L2. simpl in L2. lia.
  - intros c r0 E. apply not_true_is_false. intros L.
    assert (Hlen : S j2 <= length s2).
    { rewrite <- (firstn_skipn j2 s2), length_app, L2, E. simpl. lia. }
    specialize (G2 (S j2) (Nat.lt_succ_diag_r j2) I Hlen).
    assert (C : forallb ascii_lower (firstn (S j2) s2) = true).
    { rewrite <- (firstn_skipn j2 s2) at 1. rewrite E.
      rewrite <- L2 at 1.
      replace (S (length (firstn j2 s2))) with (length (firstn j2 s2 ++ [c]))
        by (rewrite length_app; simpl; lia).
      replace (firstn j2 s2 ++ c :: r0) with ((firstn j2 s2 ++ [c]) ++ r0)
        by (rewrite <- app_assoc; reflexivity).
      rewrite firstn_length_app, forallb_app. simpl. rewrite Hcls2, L. reflexivity. }
    specialize (G2 C). discriminate.
Qed.

Lemma name_re_sound (prev : option char) (s : str) (n : nat) :
  name_re prev s = Some n ->
  0 < n /\ bigram isspace (firstn n s)
  /\ (forall m' post', bigram isspace m' -> s = m' ++ post' -> length m' <= n).
Proof.
  intros H. apply name_re_match in H
    as (u & ls1 & sp & u2 & ls2 & post & -> & -> & U & N1 & L1 & SP & U2 & N2 & L2 & M).
  split; [simpl; lia|]. split.
  - replace (((u :: ls1) ++ sp :: (u2 :: ls2) ++ post))
      with (((u :: ls1) ++ sp :: u2 :: ls2) ++ post)
      by (rewrite <- app_assoc; reflexivity).
    rewrite firstn_length_app.
    exists (u :: ls1), sp, (u2 :: ls2). repeat split; try assumption.
    + exists u, ls1. auto.
    + exists u2, ls2. auto.
  - intros m' post' (w1 & sp' & w2 & -> & (u' & ls1' & -> & U' & N1' & L1')
                       & SP' & (u2' & ls2' & -> & U2' & N2' & L2')) E.
    simpl in E. injection E as -> E. rewrite <- !app_assoc in E. simpl in E.
    apply run_unique with (p := ascii_lower) in E
      as (<- & <- & E); try assumption; try (apply isspace_not_lower; assumption).
    injection E as <- E.
    pose proof (run_longest ascii_lower ls2 ls2' post post' E L2' M).
    simpl. rewrite !length_app. simpl. lia.
Qed.

Lemma name_re_complete (prev : option char) (s m' post' : str) :
  name_re prev s = None -> bigram isspace m' -> s <> m' ++ post'.
Proof.
  intros H (w1 & sp & w2 & -> & (u & ls1 & -> & U & N1 & L1)
              & SP & (u2 & ls2 & -> & U2 & N2 & L2)) ->.
  unfold name_re, one at 1 in H. simpl in H. rewrite U in H.
  destruct (plus _ _ _ _) as [n1|] eqn:P1; [discriminate|]. clear H.
  rewrite <- app_assoc in P1.
  apply rep_none with (j := length ls1) in P1.
  - rewrite skipn_length_app in P1. unfold one in P1. simpl in P1.
    rewrite SP, U2 in P1.
    destruct (plus _ _ _ _) as [n2|] eqn:P2; [discriminate|]. clear P1.
    apply rep_none with (j := length ls2) in P2.
    + discriminate.
    + destruct ls2; [congruence | simpl; lia].
    + exact I.
    + rewrite length_app. lia.
    + rewrite firstn_length_app. assumption.
  - destruct ls1; [congruence | simpl; lia].
  - exact I.
  - rewrite length_app. lia.
  - rewrite firstn_length_app. assumption.
Qed.

Lemma name_re_at (text : str) (i : nat) (m : str) (prev : option char) :
  occurs isspace text i m -> exists n, name_re prev (skipn i text) = Some (S n).
Proof.
  intros [B [post E]]. destruct (name_re prev (skipn i text)) as [n|] eqn:R.
  - apply name_re_sound in R as [Hn _]. destruct n; [lia|]. exists n; reflexivity.
  - exfalso. exact (name_re_complete prev _ m post R B E).
Qed.

Lemma findall_name (text : str) :
  name_of isspace text
    match findall name_re text with m :: _ => m | [] => lit "Unknown" end.
Proof.
  unfold findall. pose proof (scan_first name_re text None) as F.
  destruct (scan name_re None 0 text) as [|m rest].
  - right. split; [reflexivity|]. intros i m O.
    destruct (name_re_at text i m (before None text i) O) as [n R].
    apply (F i n); [|exact R].
    destruct O as [(w1 & sp & w2 & -> & (u & ls & -> & _) & _) [post E]].
    apply Nat.nle_gt. intros L. rewrite skipn_all2 in E by assumption. discriminate.
  - left. destruct F as (i & n & R & -> & Left). exists i.
    pose proof (name_re_sound _ _ _ R) as (_ & B & Long).
    split; [|split].
    + split; [exact B|]. exists (skipn (S n) (skipn i text)).
      symmetry; apply firstn_skipn.
    + intros j m' Hj O. destruct (name_re_at text j m' (before None text j) O) as [n' R'].
      exact (Left j n' Hj R').
    + intros m' [B' [post' E']]. specialize (Long m' post' B' E').
      destruct (name_re_at text i m' (before None text i) (conj B' (ex_intro _ post' E')))
        as [n' R']. rewrite R in R'. injection R' as <-.
      assert (S n <= length (skipn i text)).
      { apply name_re_match in R as (u & ls1 & sp & u2 & ls2 & post & -> & -> & _).
        simpl. rewrite ?length_app. simpl. rewrite ?length_app. simpl. lia. }
      rewrite length_firstn. lia.
Qed.

(** C7. For every text the extracted name is the first occurrence of two
    consecutive capitalized words (a capital letter followed by lowercase
    letters, one white-space character, a capital letter followed by
    lowercase letters), taken as far as its lowercase letters go, or the
    sentinel Unknown when the text has no such pair.  On John Smith works
    here it is John Smith; on a text without such a pair it is Unknown. *)
Theorem name_extraction (db : ucd) (text : str) :
  (exists d, extract_candidate_details db text = Ok d
     /\ name_of isspace text (Name d))
  /\ (exists d, extract_candidate_details db (lit "John Smith works here") = Ok d
        /\ Name d = lit "John Smith")
  /\ (exists d, extract_candidate_details db (lit "john smith works here") = Ok d
        /\ Name d = lit "Unknown").
Proof.
  split; [|split; eexists; (split; [apply extract_candidate_details_ok | reflexivity])].
  eexists. split; [apply extract_candidate_details_ok|]. simpl. apply findall_name.
Qed.

(** C7 with a space as the only separator does not hold: the two words
    of the text John, tab, Smith are not separated by a space, and the
    extracted name is the whole text, not the sentinel. *)
Lemma name_tab_counterexample :
  exists d, extract_candidate_details excerpt (lit "John" ++ 9%N :: lit "Smith") = Ok d
    /\ Name d = lit "John" ++ 9%N :: lit "Smith"
    /\ ~ name_of (is_char " ") (lit "John" ++ 9%N :: lit "Smith") (Name d).
Proof.
  eexists. split; [reflexivity|]. split; [reflexivity|].
  intros [(i & [(w1 & sp & w2 & E & _ & SP & _) _] & _) | [E _]].
  - assert (I : In sp (lit "John" ++ 9%N :: lit "Smith")).
    { change (Name _) with (lit "John" ++ 9%N :: lit "Smith") in E.
      rewrite E. apply in_or_app. right. left. reflexivity. }
    apply N.eqb_eq in SP. subst sp. vm_compute in I.
    repeat (destruct I as [I|I]; [discriminate|]). contradiction.
  - discriminate.
Qed.

(** ** Binary64 arithmetic *)

Lemma round_half_even_near (q : Q) :
  (2 * Z.abs (Float.round_half_even q * Z.pos (Qden q) - Qnum q) <= Z.pos (Qden q))%Z.
Proof.
  unfold Float.round_half_even.
  pose proof (Z.div_mod (Qnum q) (Z.pos (Qden q)) ltac:(lia)) as D.
  pose proof (Z.mod_pos_bound (Qnum q) (Z.pos (Qden q)) ltac:(lia)) as M.
  set (f := (Qnum q / Z.pos (Qden q))%Z) in *.
  set (m := (Qnum q mod Z.pos (Qden q))%Z) in *.
  set (d := Z.pos (Qden q)) in *.
  destruct (Z.ltb_spec (2 * m) d); [nia|].
  destruct (Z.ltb_spec d (2 * m)); [nia|].
  destruct (Z.even f); nia.
Qed.

Lemma round_half_even_close (q : Q) :
  (inject_Z (Float.round_half_even q) - (1 # 2) <= q
   /\ q <= inject_Z (Float.round_half_even q) + (1 # 2))%Q.
Proof.
  pose proof (round_half_even_near q) as H. destruct q as [n d].
  unfold Qle, Qminus, Qplus, Qopp, inject_Z. cbn [Qnum Qden] in *. lia.
Qed.

Lemma round_half_even_le (q : Q) (N : Z) :
  (q <= inject_Z N)%Q -> (Float.round_half_even q <= N)%Z.
Proof.
  pose proof (round_half_even_near q) as H. destruct q as [n d].
  unfold Qle, inject_Z. cbn [Qnum Qden] in *. nia.
Qed.

Lemma round_half_even_ge (q : Q) (N : Z) :
  (inject_Z N <= q)%Q -> (N <= Float.round_half_even q)%Z.
Proof.
  pose proof (round_half_even_near q) as H. destruct q as [n d].
  unfold Qle, inject_Z. cbn [Qnum Qden] in *. nia.
Qed.

Lemma pow2_pos (e : Z) : (0 < 2 ^ e)%Q.
Proof. apply Qpower_0_lt. reflexivity. Qed.

Lemma pow2_succ (e : Z) : (2 ^ (e + 1) == 2 * 2 ^ e)%Q.
Proof. rewrite Qpower_plus by discriminate. change (2 ^ 1)%Q with 2%Q. ring. Qed.

Lemma pow2_le (a b : Z) : (a <= b)%Z -> (2 ^ a <= 2 ^ b)%Q.
Proof. intros H. apply Qpower_le_compat_l; [exact H | discriminate]. Qed.

Lemma pow2_lt_inv (a b : Z) : (2 ^ a < 2 ^ b)%Q -> (a < b)%Z.
Proof.
  intros H. destruct (Z.lt_ge_cases a b) as [|G]; [assumption|]. exfalso.
  apply pow2_le in G. lra.
Qed.

Lemma pow2_Z (n : Z) : (0 <= n)%Z -> (2 ^ n == inject_Z (2 ^ n))%Q.
Proof. intros H. symmetry. apply (Zpower_Qpower 2 n H). Qed.

(** The exponent found for a positive rational is its binary exponent. *)
Lemma ilog2_spec (a : Q) :
  (0 < a)%Q -> (2 ^ Float.ilog2 a <= a /\ a < 2 ^ (Float.ilog2 a + 1))%Q.
Proof.
  intros Ha. unfold Float.ilog2.
  destruct a as [n d]. cbn [Qnum Qden].
  assert (Hn : (0 < n)%Z) by (unfold Qlt in Ha; simpl in Ha; lia).
  pose proof (Z.log2_spec n Hn) as [Ln Un].
  pose proof (Z.log2_spec (Z.pos d) ltac:(lia)) as [Ld Ud].
  pose proof (Z.log2_nonneg n) as Nn. pose proof (Z.log2_nonneg (Z.pos d)) as Nd.
  set (ln := Z.log2 n) in *. set (ld := Z.log2 (Z.pos d)) in *.
  assert (A : (n # d == inject_Z n / inject_Z (Z.pos d))%Q) by apply Qmake_Qdiv.
  assert (D0 : (0 < inject_Z (Z.pos d))%Q) by (unfold Qlt; simpl; lia).
  assert (QLn : (2 ^ ln <= inject_Z n)%Q).
  { rewrite pow2_Z by assumption. rewrite <- Zle_Qle. exact Ln. }
  assert (QUn : (inject_Z n < 2 * 2 ^ ln)%Q).
  { rewrite <- pow2_succ, pow2_Z by lia. rewrite <- Zlt_Qlt. exact Un. }
  assert (QLd : (2 ^ ld <= inject_Z (Z.pos d))%Q).
  { rewrite pow2_Z by assumption. rewrite <- Zle_Qle. exact Ld. }
  assert (QUd : (inject_Z (Z.pos d) < 2 * 2 ^ ld)%Q).
  { rewrite <- pow2_succ, pow2_Z by lia. rewrite <- Zlt_Qlt. exact Ud. }
  assert (K : (2 ^ (ln - ld) * 2 ^ ld == 2 ^ ln)%Q).
  { rewrite <- Qpower_plus by discriminate. replace (ln - ld + ld)%Z with ln by lia.
    reflexivity. }
  assert (AD : ((n # d) * inject_Z (Z.pos d) == inject_Z n)%Q).
  { rewrite A. field. lra. }
  pose proof (pow2_pos ld) as Pld. pose proof (pow2_pos (ln - ld)) as Pk.
  pose proof (pow2_pos ln) as Pln.
  set (X := (n # d)%Q) in *. set (N := inject_Z n) in *. set (D := inject_Z (Z.pos d)) in *.
  destruct (Qle_bool (2 ^ (ln - ld)) X) eqn:T.
  - apply Qle_bool_iff in T. split; [exact T|].
    rewrite pow2_succ.
    set (P := (2 ^ (ln - ld))%Q) in *. set (PD := (2 ^ ld)%Q) in *.
    set (PN := (2 ^ ln)%Q) in *.
    apply Qnot_le_lt. intros C. nra.
  - assert (T' : (X < 2 ^ (ln - ld))%Q).
    { apply Qnot_le_lt. intros C. apply Qle_bool_iff in C. congruence. }
    replace (ln - ld - 1 + 1)%Z with (ln - ld)%Z by lia. split; [|exact T'].
    assert (E : (2 * 2 ^ (ln - ld - 1) == 2 ^ (ln - ld))%Q).
    { rewrite <- pow2_succ. replace (ln - ld - 1 + 1)%Z with (ln - ld)%Z by lia.
      reflexivity. }
    pose proof (pow2_pos (ln - ld - 1)) as Pk1.
    set (P := (2 ^ (ln - ld))%Q) in *. set (PD := (2 ^ ld)%Q) in *.
    set (PN := (2 ^ ln)%Q) in *. set (P1 := (2 ^ (ln - ld - 1))%Q) in *.
    apply Qnot_lt_le. intros C. nra.
Qed.

(** Rounding to binary64 keeps a number between 0 and 100 there and
    moves it by at most [2 ^ -47]. *)
Lemma nearest_abs_100 (a : Q) :
  (0 <= a)%Q -> (a <= 100)%Q ->
  exists y, Float.nearest_abs a = Some y
    /\ (0 <= y /\ y <= 100 /\ y - a <= 1 # 140737488355328
        /\ a - y <= 1 # 140737488355328)%Q.
Proof.
  intros H0 H100. unfold Float.nearest_abs.
  destruct (Qle_bool a 0) eqn:Z0.
  - apply Qle_bool_iff in Z0. exists 0%Q. split; [reflexivity|]. lra.
  - assert (Ha : (0 < a)%Q).
    { apply Qnot_le_lt. intros C. apply Qle_bool_iff in C. congruence. }
    destruct (ilog2_spec a Ha) as [Lo Up].
    assert (L6 : (Float.ilog2 a < 7)%Z).
    { apply pow2_lt_inv. change (2 ^ 7)%Q with 128%Q. lra. }
    set (e := Z.max (Float.ilog2 a - 52) (-1074)).
    assert (E46 : (e <= -46)%Z) by (unfold e; lia).
    assert (Up' : (a < 2 ^ (e + 53))%Q).
    { eapply Qlt_le_trans; [exact Up|]. apply pow2_le. unfold e; lia. }
    pose proof (pow2_pos e) as Pe.
    assert (S53 : (2 ^ (e + 53) == 2 ^ 53 * 2 ^ e)%Q).
    { rewrite Z.add_comm. apply Qpower_plus. discriminate. }
    pose proof (round_half_even_close (a / 2 ^ e)) as [C1 C2].
    assert (M0 : (0 <= Float.round_half_even (a / 2 ^ e))%Z).
    { apply round_half_even_ge. change (inject_Z 0) with 0%Q.
      apply Qle_shift_div_l; [exact Pe | lra]. }
    assert (M53 : (Float.round_half_even (a / 2 ^ e) <= 2 ^ 53)%Z).
    { apply round_half_even_le. apply Qle_shift_div_r; [exact Pe|].
      rewrite <- pow2_Z by lia. lra. }
    assert (QD : (a / 2 ^ e * 2 ^ e == a)%Q) by (field; lra).
    assert (P46 : (2 ^ e <= 1 # 70368744177664)%Q).
    { change (1 # 70368744177664)%Q with (2 ^ (-46))%Q. apply pow2_le. exact E46. }
    set (m := Float.round_half_even (a / 2 ^ e)) in *.
    rewrite Zle_Qle in M0, M53. change (inject_Z 0) with 0%Q in M0.
    rewrite <- pow2_Z in M53 by lia.
    assert (Y100 : (inject_Z m * 2 ^ e <= 100)%Q).
    { destruct (Z.eq_dec e (-46)) as [E|E].
      - assert (M100 : (m <= 100 * 2 ^ 46)%Z).
        { apply round_half_even_le. apply Qle_shift_div_r; [exact Pe|].
          rewrite E. change (2 ^ (-46))%Q with (1 # 70368744177664)%Q.
          change (inject_Z (100 * 2 ^ 46)) with (7036874417766400 # 1)%Q. lra. }
        rewrite Zle_Qle in M100. rewrite E in *.
        change (2 ^ (-46))%Q with (1 # 70368744177664)%Q in *.
        change (inject_Z (100 * 2 ^ 46)) with (7036874417766400 # 1)%Q in M100. lra.
      - assert (P47 : (2 ^ (e + 53) <= 64)%Q).
        { change 64%Q with (2 ^ 6)%Q. apply pow2_le. lia. }
        set (P := (2 ^ e)%Q) in *. set (Q53 := (2 ^ 53)%Q) in *.
        set (M := inject_Z m) in *. nra. }
    set (P := (2 ^ e)%Q) in *. set (M := inject_Z m) in *.
    assert (B : Qle_bool (2 ^ 1024) (M * P) = false).
    { apply not_true_is_false. intros C. apply Qle_bool_iff in C.
      assert (G : (128 <= 2 ^ 1024)%Q).
      { change 128%Q with (2 ^ 7)%Q. apply pow2_le. lia. }
      lra. }
    rewrite B. exists (M * P)%Q. split; [reflexivity|].
    set (A := (a / P)%Q) in *.
    repeat split; try nra.
Qed.

Lemma nearest_100 (x : Q) :
  (- (100) <= x)%Q -> (x <= 100)%Q ->
  exists y, Float.nearest x = Float.Finite y
    /\ (- (100) <= y /\ y <= 100
        /\ y - x <= 1 # 140737488355328 /\ x - y <= 1 # 140737488355328)%Q
    /\ ((0 <= x)%Q -> (0 <= y)%Q).
Proof.
  intros Lo Hi. unfold Float.nearest, Float.is_neg.
  destruct (Qle_bool 0 x) eqn:S.
  - apply Qle_bool_iff in S.
    assert (A : (Qabs x == x)%Q) by (apply Qabs_pos; exact S).
    destruct (nearest_abs_100 (Qabs x)) as (y & E & B); [rewrite A; lra | rewrite A; lra|].
    rewrite E. exists y. simpl. rewrite A in B. split; [reflexivity|]. split; [lra|]. lra.
  - assert (N : (x < 0)%Q).
    { apply Qnot_le_lt. intros C. apply Qle_bool_iff in C. congruence. }
    assert (A : (Qabs x == - x)%Q) by (apply Qabs_neg; lra).
    destruct (nearest_abs_100 (Qabs x)) as (y & E & B); [rewrite A; lra | rewrite A; lra|].
    rewrite E. exists (- y)%Q. simpl. rewrite A in B. split; [reflexivity|]. split; lra.
Qed.

(** ** The similarity score *)

Lemma score_100 (c : Q) :
  (- (1) <= c)%Q -> (c <= 1)%Q ->
  is_score (Float.Finite c)
    (Float.round (Float.mul (Float.Finite c) (Float.Finite 100)) 2).
Proof.
  intros Lo Hi. split; [reflexivity|]. exists c. cbn [Float.mul].
  destruct (nearest_100 (c * 100)) as (p & -> & Bp & Sp); [lra | lra|].
  cbn [Float.round]. change (Z.to_pos (10 ^ Z.of_nat 2)) with 100%positive.
  pose proof (round_half_even_close (p * inject_Z 100)) as [C1 C2].
  assert (K1 : (Float.round_half_even (p * inject_Z 100) <= 10000)%Z).
  { apply round_half_even_le. change (inject_Z 100) with 100%Q.
    change (inject_Z 10000) with 10000%Q. lra. }
  assert (K2 : (-10000 <= Float.round_half_even (p * inject_Z 100))%Z).
  { apply round_half_even_ge. change (inject_Z 100) with 100%Q.
    change (inject_Z (-10000)) with (-10000 # 1)%Q. lra. }
  assert (K0 : (0 <= c)%Q -> (0 <= Float.round_half_even (p * inject_Z 100))%Z).
  { intros P. apply round_half_even_ge. change (inject_Z 100) with 100%Q.
    change (inject_Z 0) with 0%Q. specialize (Sp ltac:(lra)). lra. }
  set (k := Float.round_half_even (p * inject_Z 100)) in *.
  assert (KQ : (k # 100 == inject_Z k / 100)%Q) by apply Qmake_Qdiv.
  rewrite Zle_Qle in K1, K2. change (inject_Z 10000) with 10000%Q in K1.
  change (inject_Z (-10000)) with (-10000 # 1)%Q in K2.
  change (inject_Z 100) with 100%Q in *.
  assert (KQ' : ((k # 100) * 100 == inject_Z k)%Q) by (rewrite KQ; field).
  destruct (nearest_100 (k # 100)) as (s & -> & Bs & Ss); [lra | lra|].
  exists s. split; [reflexivity|]. split; [reflexivity|].
  split; [lra|]. split; [lra|].
  intros P. apply Ss. specialize (K0 P). rewrite Zle_Qle in K0.
  change (inject_Z 0) with 0%Q in K0. lra.
Qed.

(** ** The handler of Start Analysis, file by file *)

Section Run.
Variable rd : readers.
Variable db : ucd.
Variable cos_sim : str -> str -> Float.float.
Variable sort_values : list App.ranked -> list App.ranked.
Variables category role_ jd_text : str.
Variable jd_skills : list str.

Lemma info_of_eq (text : str) : extract_candidate_details db text = Ok (info_of db text).
Proof. unfold info_of. rewrite extract_candidate_details_ok. reflexivity. Qed.

(** One file: a failed read ends the run, a blank text changes nothing,
    any other text adds one row to the table shown and one to the table
    stored. *)
Lemma analyze_file_run (results : list App.ranked) (file : upload)
    (store : list App.candidate) :
  App.analyze_file rd db cos_sim category role_ jd_text jd_skills results file store
  = match extract_text rd file with
    | Raise e => (store, Raise e)
    | Ok _ =>
        if nonblank rd file
        then (store ++ [stored_row rd db cos_sim category role_ jd_text jd_skills file],
              Ok (results ++ [shown_row rd db cos_sim jd_text jd_skills file]))
        else (store, Ok results)
    end.
Proof.
  unfold App.analyze_file, App.bind_m, App.lift, nonblank.
  unfold stored_row, shown_row, score_of, matched_of, gaps_of, skills_of, text_of.
  destruct (extract_text rd file) as [text|e]; [|reflexivity].
  destruct (truthy (strip text)); [|reflexivity].
  rewrite (info_of_eq text). reflexivity.
Qed.

(** The loop: the rows of the analysed files in front of the first
    failed read are stored; the table is returned when no read fails. *)
Lemma for_each_run (files : list upload) :
  forall results store,
    App.for_each rd db cos_sim category role_ jd_text jd_skills files results store
    = (store ++ map (stored_row rd db cos_sim category role_ jd_text jd_skills)
                  (filter (nonblank rd) (read_prefix rd files)),
       match first_error rd files with
       | Some e => Raise e
       | None => Ok (results ++ map (shown_row rd db cos_sim jd_text jd_skills)
                                  (filter (nonblank rd) files))
       end).
Proof.
  induction files as [|file rest IH]; intros results store.
  - simpl. unfold App.ret. rewrite !app_nil_r. reflexivity.
  - cbn [App.for_each read_prefix first_error]. unfold App.bind_m at 1.
    rewrite analyze_file_run.
    destruct (extract_text rd file) as [text|e].
    + cbn [filter]. destruct (nonblank rd file).
      * rewrite IH. cbn [map]. rewrite <- !app_assoc. reflexivity.
      * rewrite IH. reflexivity.
    + cbn [filter map]. rewrite app_nil_r. reflexivity.
Qed.

Lemma read_prefix_all (files : list upload) :
  first_error rd files = None -> read_prefix rd files = files.
Proof.
  induction files as [|f rest IH]; simpl; [reflexivity|].
  destruct (extract_text rd f); [|discriminate]. intros H. rewrite IH by exact H.
  reflexivity.
Qed.

End Run.

(** The handler as a whole. *)
Lemma analysis_run (rd : readers) (db : ucd) (cos_sim : str -> str -> Float.float)
    (sort_values : list App.ranked -> list App.ranked) (category role_ : str)
    (files : list upload) (store : list App.candidate) :
  let jd_text := dict_get ROLE_SKILLS role_ [] in
  let jd_skills := extract_skills_from_jd db jd_text in
  let results := map (shown_row rd db cos_sim jd_text jd_skills)
                   (filter (nonblank rd) files) in
  App.analysis rd db cos_sim sort_values category role_ files store
  = (store ++ map (stored_row rd db cos_sim category role_ jd_text jd_skills)
                (filter (nonblank rd) (read_prefix rd files)),
     match files with
     | [] => Ok App.please_upload
     | _ :: _ =>
         match first_error rd files with
         | Some e => Raise e
         | None => if truthy results then Ok (App.ranked_table (sort_values results))
                   else Ok App.no_valid_resumes
         end
     end).
Proof.
  intros jd_text jd_skills results. unfold App.analysis.
  destruct files as [|f rest]; [simpl; unfold App.ret; rewrite app_nil_r; reflexivity|].
  cbn [truthy negb]. unfold App.bind_m. rewrite for_each_run.
  fold jd_text. fold jd_skills.
  destruct (first_error rd (f :: rest)); [reflexivity|].
  change ([] ++ ?l) with l. fold results.
  destruct (truthy results); reflexivity.
Qed.

Lemma Forall2_map_r {A B : Type} (R : A -> B -> Prop) (g : A -> B) (l : list A) :
  (forall a, R a (g a)) -> Forall2 R l (map g l).
Proof. intros H. induction l; simpl; constructor; auto. Qed.

Lemma insert_perm (r : App.ranked) (l : list App.ranked) :
  Permutation (Instances.insert r l) (r :: l).
Proof.
  induction l as [|r' l IH]; simpl; [apply Permutation_refl|].
  destruct (Instances.geb _ _); [apply Permutation_refl|].
  eapply perm_trans; [apply perm_skip; exact IH | apply perm_swap].
Qed.

Lemma sort_desc_perm (l : list App.ranked) : Permutation (Instances.sort_desc l) l.
Proof.
  induction l as [|r l IH]; simpl; [constructor|].
  eapply perm_trans; [apply insert_perm | apply perm_skip; exact IH].
Qed.

(** C3. When the embedding collaborator gives cosine similarities between
    -1 and 1, the score of every row the analysis stores, and of every row
    of the table it shows, is the cosine similarity of the role
    description and the text of that row's file, multiplied by 100 in
    binary64 and rounded to two decimals; that score lies between -100 and
    100, and between 0 and 100 when the cosine similarity is not
    negative. *)
Theorem similarity_score_range (rd : readers) (db : ucd)
    (cos_sim : str -> str -> Float.float)
    (sort_values : list App.ranked -> list App.ranked)
    (cos_range : forall a b, exists c,
        cos_sim a b = Float.Finite c /\ (- (1) <= c /\ c <= 1)%Q)
    (sorts : forall l, Permutation (sort_values l) l)
    (category role_ : str) (uploaded_files : list upload)
    (store : list App.candidate) :
  exists rows,
    fst (App.analysis rd db cos_sim sort_values category role_ uploaded_files store)
      = store ++ rows
    /\ Forall2 (fun f r =>
         App.filename r = file_name f
         /\ is_score (cos_sim (dict_get ROLE_SKILLS role_ []) (text_of rd f))
              (App.similarity r))
         (filter (nonblank rd) (read_prefix rd uploaded_files)) rows
    /\ forall df,
         snd (App.analysis rd db cos_sim sort_values category role_ uploaded_files store)
           = Ok (App.ranked_table df) ->
         Forall (fun r => exists f, In f uploaded_files
                   /\ App.r_Resume r = file_name f
                   /\ is_score (cos_sim (dict_get ROLE_SKILLS role_ []) (text_of rd f))
                        (App.r_Similarity r)) df.
Proof.
  assert (Sc : forall f, is_score (cos_sim (dict_get ROLE_SKILLS role_ []) (text_of rd f))
                 (score_of rd cos_sim (dict_get ROLE_SKILLS role_ []) f)).
  { intros f. unfold score_of.
    destruct (cos_range (dict_get ROLE_SKILLS role_ []) (text_of rd f)) as (c & -> & Lo & Hi).
    apply score_100; assumption. }
  pose proof (analysis_run rd db cos_sim sort_values category role_ uploaded_files store) as R.
  cbv zeta in R. rewrite R. clear R. cbn [fst snd].
  eexists. split; [reflexivity|]. split.
  - apply Forall2_map_r. intros f. split; [reflexivity | apply Sc].
  - intros df H. destruct uploaded_files as [|f0 rest]; [discriminate|].
    destruct (first_error rd (f0 :: rest)); [discriminate|].
    destruct (truthy _); [|discriminate]. injection H as <-.
    apply Forall_forall. intros r Hr.
    apply (Permutation_in _ (sorts _)) in Hr.
    apply in_map_iff in Hr as (f & <- & Hf).
    change (In f (filter (nonblank rd) (f0 :: rest))) in Hf.
    apply filter_In in Hf as [Hf _].
    exists f. split; [exact Hf|]. split; [reflexivity | apply Sc].
Qed.

Lemma similarity_score_range_witness :
  exists rows,
    fst (App.analysis Instances.text_readers UcdExcerpt.excerpt
           (fun _ _ => Float.Finite (5764607523034235 # 4611686018427387904))
           Instances.sort_desc (lit "Data & Analytics") (lit "Data Scientist")
           [Upload (lit "cv.txt") (lit "Jane Roe knows python and sql")] [])
      = rows
    /\ map App.similarity rows = [Float.nearest (12 # 100)].
Proof.
  destruct (similarity_score_range Instances.text_readers UcdExcerpt.excerpt
              (fun _ _ => Float.Finite (5764607523034235 # 4611686018427387904))
              Instances.sort_desc
              ltac:(intros; eexists; split; [reflexivity | split; discriminate])
              sort_desc_perm
              (lit "Data & Analytics") (lit "Data Scientist")
              [Upload (lit "cv.txt") (lit "Jane Roe knows python and sql")] [])
    as (rows & E & _ & _).
  exists rows. split; [exact E|].
  vm_compute in E. rewrite <- E. vm_compute. reflexivity.
Defined.

(** C3 with the range 0 to 100 does not hold: for the cosine similarity
    -1/2 the score shown and stored is -50. *)
Lemma negative_score_counterexample :
  (- (1) <= - (1 # 2) /\ - (1 # 2) <= 1)%Q
  /\ exists row s,
       fst (App.analysis Instances.text_readers UcdExcerpt.excerpt
              (fun _ _ => Float.Finite (- (1 # 2))) Instances.sort_desc
              (lit "Data & Analytics") (lit "Data Scientist")
              [Upload (lit "cv.txt") (lit "Jane Roe knows python and sql")] [])
       = [row]
       /\ App.similarity row = Float.Finite s
       /\ (s == - (50))%Q
       /\ ~ (0 <= s)%Q.
Proof.
  split; [split; discriminate|].
  eexists; eexists. split; [vm_compute; reflexivity|].
  split; [reflexivity|]. split; [reflexivity|].
  intros H. apply H. reflexivity.
Qed.

(** ** The admin panel *)

(** C8. The admin login succeeds for the pair admin, 12345 and for no
    other: with that pair the page reports the login and shows the stored
    rows (or says that there are none yet); with any other pair it shows
    the error message and no widget that holds stored data.  The stored
    table is the same after the attempt in both cases. *)
Theorem admin_login (store : list App.candidate) (username password : str) :
  let (store', page) := App.admin_panel store username password true in
  store' = store
  /\ ((username = lit "admin" /\ password = lit "12345"
       /\ In (App.success (lit "Logged in successfully!")) page
       /\ match store with
          | [] => In (App.info (lit "No candidate data available yet.")) page
          | _ :: _ => In (App.dataframe store) page
          end)
      \/ (~ (username = lit "admin" /\ password = lit "12345")
          /\ page = [ App.title (lit "Recruiter Admin Panel");
                      App.text_input (lit "Admin Username");
                      App.text_input (lit "Password");
                      App.button (lit "Login");
                      App.error (lit "Invalid credentials. Try again.") ]
          /\ existsb App.shows_data page = false
          /\ ~ In (App.success (lit "Logged in successfully!")) page)).
Proof.
  unfold App.admin_panel.
  destruct (eqb username (lit "admin") && eqb password (lit "12345")) eqn:C.
  - split; [reflexivity|]. left.
    apply andb_true_iff in C as [U P]. apply eqb_eq in U, P.
    split; [exact U|]. split; [exact P|].
    split; [simpl; tauto|].
    destruct store; simpl; tauto.
  - split; [reflexivity|]. right.
    split; [|split; [reflexivity | split; [reflexivity|]]].
    + intros [U P]. rewrite U, P in C. discriminate.
    + simpl. intros H. repeat (destruct H as [H|H]; [discriminate|]). contradiction.
Qed.

(** * Further properties of the extraction and matching code *)

(** ** Where the matches of a scan stand *)

Lemma scan_In_at (re : matcher) (m : str) (s : str) :
  forall prev skip, In m (scan re prev skip s) ->
  exists i n, re (before prev s i) (skipn i s) = Some (S n)
    /\ m = firstn (S n) (skipn i s).
Proof.
  induction s as [|c s IH]; intros prev skip H; simpl in H; [contradiction|].
  assert (Next : forall k, In m (scan re (Some c) k s) ->
            exists i n, re (before prev (c :: s) i) (skipn i (c :: s)) = Some (S n)
              /\ m = firstn (S n) (skipn i (c :: s))).
  { intros k Hk. destruct (IH _ _ Hk) as (i & n & R & E).
    exists (S i), n. rewrite before_cons. split; assumption. }
  destruct skip as [|k]; [|eapply Next; exact H].
  destruct (re prev (c :: s)) as [[|n]|] eqn:R; try (eapply Next; exact H).
  destruct H as [<-|H]; [|eapply Next; exact H].
  exists 0, n. split; [exact R | reflexivity].
Qed.

Lemma prefix_substring (text : str) (i n : nat) :
  substring (firstn n (skipn i text)) text.
Proof.
  exists (firstn i text), (skipn n (skipn i text)).
  rewrite firstn_skipn, firstn_skipn. reflexivity.
Qed.

(** Every element of [findall] is a match of the pattern that stands in
    the text. *)
Lemma findall_In (re : matcher) (text m : str) :
  In m (findall re text) ->
  substring m text /\ exists prev s n, re prev s = Some (S n) /\ m = firstn (S n) s.
Proof.
  intros H. apply scan_In_at in H as (i & n & R & ->). split.
  - apply prefix_substring.
  - eauto.
Qed.

Lemma findall_head (re : matcher) (text m : str) (rest : list str) :
  findall re text = m :: rest ->
  substring m text /\ exists prev s n, re prev s = Some (S n) /\ m = firstn (S n) s.
Proof. intros E. apply findall_In. rewrite E. left; reflexivity. Qed.

(** ** Email extraction *)

Lemma email_re_match (db : ucd) (prev : option char) (s : str) (n : nat) :
  email_re db prev s = Some n ->
  exists l dom tld,
    firstn n s = l ++ cp "@" :: dom ++ cp "." :: tld
    /\ l <> [] /\ forallb (email_char db) l = true
    /\ dom <> [] /\ forallb (email_char db) dom = true
    /\ tld <> [] /\ forallb (Py.is_word db) tld = true.
Proof.
  unfold email_re. intros H.
  apply rep_some in H as (j1 & m1 & -> & Hlo1 & _ & Hlen1 & Hcls1 & Hk1 & _).
  unfold one at 1 in Hk1.
  destruct (skipn j1 s) as [|a s2] eqn:T1; [discriminate|].
  destruct (is_char "@" a) eqn:A; [|discriminate].
  destruct (plus _ _ _ s2) as [n2|] eqn:P2; [|discriminate].
  simpl in Hk1. injection Hk1 as <-.
  apply rep_some in P2 as (j2 & m2 & -> & Hlo2 & _ & Hlen2 & Hcls2 & Hk2 & _).
  unfold one at 1 in Hk2.
  destruct (skipn j2 s2) as [|b s3] eqn:T2; [discriminate|].
  destruct (is_char "." b) eqn:B; [|discriminate].
  destruct (plus _ _ _ s3) as [n3|] eqn:P3; [|discriminate].
  simpl in Hk2. injection Hk2 as <-.
  apply rep_some in P3 as (j3 & m3 & -> & Hlo3 & _ & Hlen3 & Hcls3 & Hk3 & _).
  injection Hk3 as <-.
  apply N.eqb_eq in A, B. subst a b.
  exists (firstn j1 s), (firstn j2 s2), (firstn j3 s3).
  assert (L1 : length (firstn j1 s) = j1) by (rewrite length_firstn; lia).
  assert (L2 : length (firstn j2 s2) = j2) by (rewrite length_firstn; lia).
  assert (L3 : length (firstn j3 s3) = j3) by (rewrite length_firstn; lia).
  repeat split; try assumption.
  - rewrite <- (firstn_skipn j1 s) at 1. rewrite T1.
    rewrite <- (firstn_skipn j2 s2) at 1. rewrite T2.
    rewrite <- L1 at 1. rewrite firstn_app_2. f_equal.
    simpl. f_equal.
    replace (j2 + S (j3 + 0)) with (length (firstn j2 s2) + S j3) by lia.
    rewrite firstn_app_2. reflexivity.
  - intros E. rewrite E in L1. simpl in L1. lia.
  - intros E. rewrite E in L2. simpl in L2. lia.
  - intros E. rewrite E in L3. simpl in L3. lia.
Qed.

Lemma substring_In (m text : str) (c : char) : substring m text -> In c m -> In c text.
Proof.
  intros (pre & post & ->) H. apply in_or_app. right. apply in_or_app. left. exact H.
Qed.

Lemma substring_length (m text : str) : substring m text -> length m <= length text.
Proof. intros (pre & post & ->). rewrite !length_app. lia. Qed.

(** X1. The email field is the sentinel or a piece of the text of the
    shape local part, at sign, domain, dot, top-level part, the three
    parts non-empty; a text without an at sign always gives the sentinel. *)
Theorem email_extraction (db : ucd) (text : str) :
  exists d, extract_candidate_details db text = Ok d
    /\ (Email d = lit "Not Found"
        \/ (substring (Email d) text
            /\ exists l dom tld,
                 Email d = l ++ cp "@" :: dom ++ cp "." :: tld
                 /\ l <> [] /\ forallb (email_char db) l = true
                 /\ dom <> [] /\ forallb (email_char db) dom = true
                 /\ tld <> [] /\ forallb (Py.is_word db) tld = true))
    /\ (In (cp "@") text \/ Email d = lit "Not Found").
Proof.
  eexists. split; [apply extract_candidate_details_ok|]. simpl.
  destruct (findall (email_re db) text) as [|m rest] eqn:F; [split; [left|right]; reflexivity|].
  apply findall_head in F as (Sub & prev & s & n & R & ->).
  apply email_re_match in R as (l & dom & tld & E & Shape).
  split.
  - right. split; [exact Sub|]. exists l, dom, tld. split; assumption.
  - left. apply (substring_In _ _ _ Sub). rewrite E.
    apply in_or_app. right. left. reflexivity.
Qed.

(** ** Phone extraction *)

Lemma phone_re_match (db : ucd) (prev : option char) (s : str) (n : nat) :
  phone_re db prev s = Some n ->
  exists sign d0 body d1,
    firstn n s = sign ++ d0 :: body ++ [d1]
    /\ (sign = [] \/ sign = [cp "+"])
    /\ Py.is_digit db d0 = true
    /\ 8 <= length body /\ forallb (phone_char db) body = true
    /\ Py.is_digit db d1 = true.
Proof.
  unfold phone_re, opt. intros H.
  apply rep_some in H as (j0 & m0 & -> & _ & Hhi0 & Hlen0 & Hcls0 & Hk0 & _).
  simpl in Hhi0. unfold one at 1 in Hk0.
  destruct (skipn j0 s) as [|d0 s1] eqn:T0; [discriminate|].
  destruct (Py.is_digit db d0) eqn:D0; [|discriminate].
  destruct (rep _ _ _ _ _ s1) as [n1|] eqn:P1; [|discriminate].
  simpl in Hk0. injection Hk0 as <-.
  apply rep_some in P1 as (j1 & m1 & -> & Hlo1 & _ & Hlen1 & Hcls1 & Hk1 & _).
  unfold one at 1 in Hk1.
  destruct (skipn j1 s1) as [|d1 s2] eqn:T1; [discriminate|].
  destruct (Py.is_digit db d1) eqn:D1; [|discriminate].
  simpl in Hk1. injection Hk1 as <-.
  assert (L0 : length (firstn j0 s) = j0) by (rewrite length_firstn; lia).
  assert (L1 : length (firstn j1 s1) = j1) by (rewrite length_firstn; lia).
  exists (firstn j0 s), d0, (firstn j1 s1), d1.
  repeat split; try assumption; try lia.
  - rewrite <- (firstn_skipn j0 s) at 1. rewrite T0.
    rewrite <- (firstn_skipn j1 s1) at 1. rewrite T1.
    rewrite <- L0 at 1. rewrite firstn_app_2. f_equal.
    simpl. f_equal.
    replace (j1 + 1) with (length (firstn j1 s1) + 1) by lia.
    rewrite firstn_app_2. reflexivity.
  - destruct (firstn j0 s) as [|c [|c' r]] eqn:E; simpl in L0; try lia; [left; reflexivity|].
    right. simpl in Hcls0. apply andb_true_iff in Hcls0 as [C _].
    apply N.eqb_eq in C. subst c. reflexivity.
Qed.

(** X2. The phone field is the sentinel or a piece of the text made of an
    optional plus sign, a digit, at least eight characters out of digits,
    white space, hyphen and parentheses, and a final digit; so it has at
    least ten characters, and a text shorter than that gives the sentinel. *)
Theorem phone_extraction (db : ucd) (text : str) :
  exists d, extract_candidate_details db text = Ok d
    /\ (Phone d = lit "Not Found"
        \/ (substring (Phone d) text
            /\ 10 <= length (Phone d)
            /\ exists sign d0 body d1,
                 Phone d = sign ++ d0 :: body ++ [d1]
                 /\ (sign = [] \/ sign = [cp "+"])
                 /\ Py.is_digit db d0 = true
                 /\ 8 <= length body /\ forallb (phone_char db) body = true
                 /\ Py.is_digit db d1 = true))
    /\ (10 <= length text \/ Phone d = lit "Not Found").
Proof.
  eexists. split; [apply extract_candidate_details_ok|]. simpl.
  destruct (findall (phone_re db) text) as [|m rest] eqn:F; [split; [left|right]; reflexivity|].
  apply findall_head in F as (Sub & prev & s & n & R & ->).
  apply phone_re_match in R as (sign & d0 & body & d1 & E & Shape).
  assert (L : 10 <= length (firstn (S n) s)).
  { rewrite E. rewrite length_app. simpl. rewrite length_app. simpl.
    destruct Shape as (_ & _ & B & _). lia. }
  split.
  - right. split; [exact Sub|]. split; [exact L|].
    exists sign, d0, body, d1. split; assumption.
  - left. apply substring_length in Sub. lia.
Qed.

(** ** The skill set of a resume *)

(** X3. On every text the skill list of a resume has no duplicates, and
    each skill is 2 to 15 characters long and made of letters, [#] and [+]
    only; words of one letter are never skills. *)
Theorem skills_are_a_set (db : ucd) (text : str) :
  exists d, extract_candidate_details db text = Ok d
    /\ NoDup (Skills d)
    /\ Forall (fun t => 2 <= length t <= 15 /\ forallb skill_char t = true) (Skills d).
Proof.
  eexists. split; [apply extract_candidate_details_ok|]. simpl.
  split; [apply distinct_NoDup|].
  apply Forall_forall. intros t H. apply (proj1 (distinct_In _ _)) in H.
  apply findall_skill_token in H. exact H.
Qed.

(** ** Skill-gap detection: what it depends on *)

Lemma mem_same_set (s : str) (r r' : list str) : same_set r r' -> mem s r = mem s r'.
Proof.
  intros H. apply eq_iff_eq_true. rewrite !mem_In. apply H.
Qed.

(** X4. The result of [detect_skill_gaps] depends on the resume skills as
    a set only: two skill lists with the same elements, in any order and
    with any repetitions, give the same matched and gaps lists. *)
Theorem detect_skill_gaps_set (jd_skills r r' : list str) (H : same_set r r') :
  detect_skill_gaps jd_skills r = detect_skill_gaps jd_skills r'.
Proof.
  unfold detect_skill_gaps. f_equal; apply filter_ext; intros s;
    rewrite (mem_same_set s r r' H); reflexivity.
Qed.

Lemma detect_skill_gaps_set_witness :
  detect_skill_gaps [lit "sql"; lit "react"] [lit "react"; lit "go"; lit "react"]
  = detect_skill_gaps [lit "sql"; lit "react"] [lit "go"; lit "react"].
Proof.
  apply (detect_skill_gaps_set [lit "sql"; lit "react"]
           [lit "react"; lit "go"; lit "react"] [lit "go"; lit "react"]).
  intros x. simpl. tauto.
Defined.

(** X5. There are no skill gaps exactly when every job token is among the
    resume skills, and then matched is the whole job token list; nothing
    is matched exactly when no job token is among them, and then gaps is
    the whole job token list. *)
Theorem detect_skill_gaps_extremes (jd_skills resume_skills : list str) :
  let (matched, gaps) := detect_skill_gaps jd_skills resume_skills in
  (gaps = [] <-> forall s, In s jd_skills -> In s resume_skills)
  /\ (gaps = [] -> matched = jd_skills)
  /\ (matched = [] <-> forall s, In s jd_skills -> ~ In s resume_skills)
  /\ (matched = [] -> gaps = jd_skills).
Proof.
  cbv beta iota zeta delta [detect_skill_gaps].
  induction jd_skills as [|t l IH]; simpl.
  - repeat split; intros; try reflexivity; contradiction.
  - destruct IH as (G & GM & M & MG).
    destruct (mem t resume_skills) eqn:E; simpl.
    + apply mem_In in E. repeat split; try discriminate.
      * intros H s [<-|Hs]; [exact E | apply G; assumption].
      * intros H. apply G. intros s Hs. apply H. right; exact Hs.
      * intros H. f_equal. apply GM. exact H.
      * intros H. exfalso. apply (H t); [left; reflexivity | exact E].
    + apply mem_false in E. repeat split; try discriminate.
      * intros H. exfalso. apply E. apply H. left; reflexivity.
      * intros H s [<-|Hs]; [exact E | apply M; assumption].
      * intros H. apply M. intros s Hs. apply H. right; exact Hs.
      * intros H. f_equal. apply MG. exact H.
Qed.

Lemma detect_skill_gaps_extremes_witness :
  detect_skill_gaps [lit "sql"; lit "go"] [lit "go"; lit "sql"; lit "c"]
  = ([lit "sql"; lit "go"], []).
Proof.
  pose proof (detect_skill_gaps_extremes [lit "sql"; lit "go"]
                [lit "go"; lit "sql"; lit "c"]) as H.
  destruct (detect_skill_gaps [lit "sql"; lit "go"] [lit "go"; lit "sql"; lit "c"])
    as [matched gaps].
  destruct H as (G & GM & _).
  assert (E : gaps = []).
  { apply G. intros s Hs. simpl in *. tauto. }
  rewrite (GM E), E. reflexivity.
Defined.

(** ** Letter case *)

Lemma skills_of_eq (db : ucd) (text : str) :
  skills_of db text = distinct (findall (skill_re db) (Py.lower db text)).
Proof. unfold skills_of. rewrite extract_candidate_details_ok. reflexivity. Qed.

Lemma jd_tokens_of_lowered (db : ucd) (text : str) :
  forallb is_ascii text = true ->
  extract_skills_from_jd db text = findall (skill_re db) (map to_lower_ascii text).
Proof.
  intros A. rewrite <- (findall_skill_lower db text A). unfold Py.lower. rewrite A.
  reflexivity.
Qed.

(** X6. On ASCII texts the tokenization ignores letter case: two texts
    that are equal once lowercased give the same job tokens and the same
    resume skills. *)
Theorem tokenization_ignores_case (db : ucd) (t1 t2 : str)
    (A1 : forallb is_ascii t1 = true) (A2 : forallb is_ascii t2 = true)
    (E : map to_lower_ascii t1 = map to_lower_ascii t2) :
  extract_skills_from_jd db t1 = extract_skills_from_jd db t2
  /\ skills_of db t1 = skills_of db t2.
Proof.
  rewrite !skills_of_eq. unfold Py.lower. rewrite A1, A2.
  rewrite !jd_tokens_of_lowered by assumption. rewrite E. split; reflexivity.
Qed.

Lemma tokenization_ignores_case_witness :
  extract_skills_from_jd UcdExcerpt.excerpt (lit "Python SQL")
  = extract_skills_from_jd UcdExcerpt.excerpt (lit "PYTHON sql")
  /\ skills_of UcdExcerpt.excerpt (lit "Python SQL")
     = skills_of UcdExcerpt.excerpt (lit "PYTHON sql").
Proof.
  apply (tokenization_ignores_case UcdExcerpt.excerpt (lit "Python SQL") (lit "PYTHON sql"));
    reflexivity.
Defined.

Lemma filter_all {A : Type} (f : A -> bool) (l : list A) :
  (forall x, In x l -> f x = true) ->
  filter f l = l /\ filter (fun x => negb (f x)) l = [].
Proof.
  induction l as [|x l IH]; intros H; simpl; [split; reflexivity|].
  rewrite (H x) by (left; reflexivity). simpl.
  destruct IH as [-> ->]; [intros y Hy; apply H; right; exact Hy|].
  split; reflexivity.
Qed.

(** X7. A resume whose text is the role description, up to letter case,
    has no skill gaps: every job token is matched.  Both texts ASCII. *)
Theorem same_text_no_gaps (db : ucd) (jd_text text : str)
    (A1 : forallb is_ascii jd_text = true) (A2 : forallb is_ascii text = true)
    (E : map to_lower_ascii jd_text = map to_lower_ascii text) :
  detect_skill_gaps (extract_skills_from_jd db jd_text) (skills_of db text)
  = (extract_skills_from_jd db jd_text, []).
Proof.
  rewrite skills_of_eq. unfold Py.lower. rewrite A2, <- E.
  rewrite <- jd_tokens_of_lowered by assumption.
  set (jd := extract_skills_from_jd db jd_text).
  unfold detect_skill_gaps.
  destruct (filter_all (fun s => mem s (distinct jd)) jd) as [-> ->]; [|reflexivity].
  intros s H. apply mem_In. apply distinct_In. exact H.
Qed.

Lemma same_text_no_gaps_witness :
  detect_skill_gaps
    (extract_skills_from_jd UcdExcerpt.excerpt (lit "AWS Docker Kubernetes Linux CI/CD"))
    (skills_of UcdExcerpt.excerpt (lit "aws docker kubernetes linux ci/cd"))
  = ([lit "aws"; lit "docker"; lit "kubernetes"; lit "linux"; lit "ci"; lit "cd"], []).
Proof.
  apply (same_text_no_gaps UcdExcerpt.excerpt (lit "AWS Docker Kubernetes Linux CI/CD")
           (lit "aws docker kubernetes linux ci/cd")); reflexivity.
Defined.

(** ** Texts of one word *)

Lemma letter_skill_char (c : char) : letter c = true -> skill_char c = true.
Proof. unfold letter, skill_char. intros ->. reflexivity. Qed.

Lemma letter_word (db : ucd) (c : char) : letter c = true -> Py.is_word db c = true.
Proof.
  intros H. unfold Py.is_word.
  rewrite (skill_char_ascii c (letter_skill_char c H)).
  unfold ascii_alnum. unfold letter in H. rewrite H. reflexivity.
Qed.

Lemma hd_skipn {A : Type} (l : list A) (j : nat) : hd_error (skipn j l) = nth_error l j.
Proof.
  revert j. induction l as [|x l IH]; intros [|j]; simpl; try reflexivity. apply IH.
Qed.

Lemma nth_letter (db : ucd) (w : str) (j : nat) :
  forallb letter w = true -> j < length w -> word_at db (nth_error w j) = true.
Proof.
  intros L Hj. destruct (nth_error w j) as [c|] eqn:E.
  - simpl. apply letter_word. rewrite forallb_forall in L. apply L.
    apply nth_error_In with j. exact E.
  - apply nth_error_None in E. lia.
Qed.

Lemma scan_skip_all (re : matcher) (s : str) :
  forall prev skip, length s <= skip -> scan re prev skip s = [].
Proof.
  induction s as [|c s IH]; intros prev skip H; simpl; [reflexivity|].
  destruct skip as [|k]; simpl in H; [lia|]. apply IH. lia.
Qed.

(** Inside a word no match of the skill pattern starts. *)
Lemma scan_inside_word (db : ucd) (s : str) :
  forall p, letter p = true -> forallb letter s = true ->
  scan (skill_re db) (Some p) 0 s = [].
Proof.
  induction s as [|c s IH]; intros p P L; simpl; [reflexivity|].
  simpl in L. apply andb_true_iff in L as [C L].
  unfold skill_re at 1, boundary at 1. simpl.
  rewrite (letter_word db p P), (letter_word db c C). simpl.
  apply IH; assumption.
Qed.

(** The skill pattern at the start of a text that is one word. *)
Lemma skill_re_word (db : ucd) (w : str) :
  forallb letter w = true ->
  skill_re db None w
  = if (2 <=? length w) && (length w <=? 15) then Some (length w) else None.
Proof.
  intros L. destruct (skill_re db None w) as [n|] eqn:R.
  - unfold skill_re, boundary at 1 in R.
    destruct (xorb _ _) in R; [|discriminate].
    apply rep_some in R as (j & m & -> & Hlo & Hhi & Hlen & _ & Hk & _).
    simpl in Hhi. unfold boundary, accept in Hk.
    destruct (xorb _ _) eqn:X in Hk; [|discriminate]. injection Hk as <-.
    assert (J : j = length w).
    { destruct (Nat.eq_dec j (length w)) as [|Ne]; [assumption|]. exfalso.
      destruct j as [|j]; [lia|]. simpl before in X.
      rewrite hd_skipn in X.
      rewrite (nth_letter db w j L), (nth_letter db w (S j) L) in X by lia.
      discriminate. }
    subst j. rewrite Nat.add_0_r.
    replace (2 <=? length w) with true by (symmetry; apply Nat.leb_le; lia).
    replace (length w <=? 15) with true by (symmetry; apply Nat.leb_le; lia).
    reflexivity.
  - destruct ((2 <=? length w) && (length w <=? 15)) eqn:B; [|reflexivity]. exfalso.
    apply andb_true_iff in B as [B1 B2]. apply Nat.leb_le in B1, B2.
    unfold skill_re, boundary at 1 in R.
    assert (H0 : word_at db (hd_error w) = true).
    { change (hd_error w) with (hd_error (skipn 0 w)). rewrite hd_skipn.
      apply nth_letter; [assumption | lia]. }
    simpl word_at at 1 in R. rewrite H0 in R. simpl in R.
    apply rep_none with (j := length w) in R; try assumption; try (simpl; lia).
    + unfold boundary, accept in R. rewrite skipn_all in R. simpl in R.
      destruct (length w) as [|k] eqn:K; [lia|]. simpl in R.
      rewrite (nth_letter db w k L) in R by lia. discriminate.
    + rewrite firstn_all. apply forallb_forall. intros c Hc.
      apply letter_skill_char. rewrite forallb_forall in L. apply L. exact Hc.
Qed.

(** X8. A text that is one word of ASCII letters gives that word,
    lowercased, as its only token when it has 2 to 15 letters, and no
    token at all otherwise: a single letter and a word of more than 15
    letters are dropped, not shortened.  The resume skills are the same. *)
Theorem one_word_tokens (db : ucd) (w : str) (L : forallb letter w = true) :
  extract_skills_from_jd db w
  = (if (2 <=? length w) && (length w <=? 15) then [map to_lower_ascii w] else [])
  /\ skills_of db w = extract_skills_from_jd db w.
Proof.
  assert (A : forallb is_ascii w = true).
  { apply forallb_forall. intros c Hc. apply skill_char_ascii, letter_skill_char.
    rewrite forallb_forall in L. apply L. exact Hc. }
  assert (T : extract_skills_from_jd db w
              = if (2 <=? length w) && (length w <=? 15)
                then [map to_lower_ascii w] else []).
  { rewrite extract_skills_from_jd_scan. unfold findall.
    destruct w as [|c s]; [reflexivity|].
    simpl scan. rewrite (skill_re_word db (c :: s) L).
    simpl in L. apply andb_true_iff in L as [C L].
    destruct ((2 <=? length (c :: s)) && (length (c :: s) <=? 15)).
    - cbn [length]. cbv iota.
      rewrite (scan_skip_all (skill_re db) s (Some c) (length s) (Nat.le_refl _)).
      rewrite firstn_all. reflexivity.
    - rewrite (scan_inside_word db s c C L). reflexivity. }
  split; [exact T|].
  rewrite skills_of_eq, (findall_skill_lower db w A), T.
  destruct ((2 <=? length w) && (length w <=? 15)); reflexivity.
Qed.

Lemma one_word_tokens_witness :
  extract_skills_from_jd UcdExcerpt.excerpt (lit "Internationalization") = []
  /\ extract_skills_from_jd UcdExcerpt.excerpt (lit "R") = []
  /\ extract_skills_from_jd UcdExcerpt.excerpt (lit "Kubernetes") = [lit "kubernetes"].
Proof.
  split; [|split].
  - exact (proj1 (one_word_tokens UcdExcerpt.excerpt (lit "Internationalization") eq_refl)).
  - exact (proj1 (one_word_tokens UcdExcerpt.excerpt (lit "R") eq_refl)).
  - exact (proj1 (one_word_tokens UcdExcerpt.excerpt (lit "Kubernetes") eq_refl)).
Defined.

(** ** The rows of an analysis *)

(** X9. A file whose text is empty or white space only adds no row;
    every other file in front of the first failed read adds exactly one
    row to the stored table, in upload order, under its file name and with
    the chosen category and role, and the rows already stored are kept in
    front.  When a read fails the handler ends with that exception and the
    rows stored so far stay; when none fails and some file was analysed,
    the table shown has one row for each analysed file (in the order the
    sort puts them); an empty upload and an upload of blank files only end
    in their warnings. *)
Theorem analysis_rows (rd : readers) (db : ucd) (cos_sim : str -> str -> Float.float)
    (sort_values : list App.ranked -> list App.ranked)
    (sorts : forall l, Permutation (sort_values l) l)
    (category role_ : str) (uploaded_files : list upload)
    (store : list App.candidate) :
  exists rows,
    fst (App.analysis rd db cos_sim sort_values category role_ uploaded_files store)
      = store ++ rows
    /\ map App.filename rows
       = map file_name (filter (nonblank rd) (read_prefix rd uploaded_files))
    /\ Forall (fun r => App.job_category r = category /\ App.role r = role_) rows
    /\ match uploaded_files, first_error rd uploaded_files with
       | [], _ =>
           snd (App.analysis rd db cos_sim sort_values category role_ uploaded_files store)
             = Ok App.please_upload
       | _ :: _, Some e =>
           snd (App.analysis rd db cos_sim sort_values category role_ uploaded_files store)
             = Raise e
       | _ :: _, None =>
           match filter (nonblank rd) uploaded_files with
           | [] =>
               snd (App.analysis rd db cos_sim sort_values category role_
                      uploaded_files store) = Ok App.no_valid_resumes
           | _ :: _ =>
               exists df,
                 snd (App.analysis rd db cos_sim sort_values category role_
                        uploaded_files store) = Ok (App.ranked_table df)
                 /\ Permutation (map App.r_Resume df)
                      (map file_name (filter (nonblank rd) uploaded_files))
           end
       end.
Proof.
  pose proof (analysis_run rd db cos_sim sort_values category role_ uploaded_files store) as R.
  cbv zeta in R. rewrite R. clear R. cbn [fst snd].
  eexists. split; [reflexivity|]. split; [|split].
  - rewrite map_map. reflexivity.
  - apply Forall_forall. intros r Hr. apply in_map_iff in Hr as (f & <- & _).
    split; reflexivity.
  - destruct uploaded_files as [|f0 rest]; [reflexivity|].
    destruct (first_error rd (f0 :: rest)); [reflexivity|].
    destruct (filter (nonblank rd) (f0 :: rest)) as [|f l]; [reflexivity|].
    cbn [map truthy]. eexists. split; [reflexivity|].
    eapply perm_trans; [apply Permutation_map; apply sorts|].
    cbn [map]. rewrite map_map. reflexivity.
Qed.

Lemma analysis_rows_witness :
  exists rows df,
    fst (App.analysis Instances.text_readers UcdExcerpt.excerpt
      (fun _ text => if eqb text (lit "Ann Lee knows sql")
                     then Float.Finite (1 # 4) else Float.Finite (3 # 4))
      Instances.sort_desc (lit "Data & Analytics") (lit "Data Scientist")
      [Upload (lit "a.txt") (lit "Ann Lee knows sql");
       Upload (lit "blank.txt") (lit "   ");
       Upload (lit "b.txt") (lit "Bob Ray knows python")] []) = rows
    /\ snd (App.analysis Instances.text_readers UcdExcerpt.excerpt
      (fun _ text => if eqb text (lit "Ann Lee knows sql")
                     then Float.Finite (1 # 4) else Float.Finite (3 # 4))
      Instances.sort_desc (lit "Data & Analytics") (lit "Data Scientist")
      [Upload (lit "a.txt") (lit "Ann Lee knows sql");
       Upload (lit "blank.txt") (lit "   ");
       Upload (lit "b.txt") (lit "Bob Ray knows python")] []) = Ok (App.ranked_table df)
    /\ map App.filename rows = [lit "a.txt"; lit "b.txt"]
    /\ map App.r_Resume df = [lit "b.txt"; lit "a.txt"].
Proof.
  destruct (analysis_rows Instances.text_readers UcdExcerpt.excerpt
      (fun _ text => if eqb text (lit "Ann Lee knows sql")
                     then Float.Finite (1 # 4) else Float.Finite (3 # 4))
      Instances.sort_desc sort_desc_perm (lit "Data & Analytics") (lit "Data Scientist")
      [Upload (lit "a.txt") (lit "Ann Lee knows sql");
       Upload (lit "blank.txt") (lit "   ");
       Upload (lit "b.txt") (lit "Bob Ray knows python")] [])
    as (rows & E & F & _ & _).
  exists rows. eexists. split; [exact E|].
  split; [vm_compute; reflexivity|].
  split; [rewrite F; reflexivity | reflexivity].
Defined.

(** ** A role without a skill description *)

Lemma dict_get_missing {V : Type} (d : list (str * V)) (key : str) (default : V) :
  ~ has_key d key -> dict_get d key default = default.
Proof.
  induction d as [|[k v] d IH]; intros H; simpl; [reflexivity|].
  destruct (eqb k key) eqn:E.
  - exfalso. apply H. exists v. apply eqb_eq in E. subst k. left; reflexivity.
  - apply IH. intros [v' Hv']. apply H. exists v'. right; exact Hv'.
Qed.

(** X10. For a role that is no key of [ROLE_SKILLS] the role description
    is the empty text: there are no job tokens, and every row of the
    analysis, stored or shown, has empty matched skills and empty skill
    gaps, whatever the resume says.  (Data Analyst, offered under Data &
    Analytics, is such a role.) *)
Theorem role_without_description (rd : readers) (db : ucd)
    (cos_sim : str -> str -> Float.float)
    (sort_values : list App.ranked -> list App.ranked)
    (sorts : forall l, Permutation (sort_values l) l)
    (category role_ : str) (uploaded_files : list upload)
    (store : list App.candidate)
    (Missing : ~ has_key ROLE_SKILLS role_) :
  exists rows,
    fst (App.analysis rd db cos_sim sort_values category role_ uploaded_files store)
      = store ++ rows
    /\ length rows = length (filter (nonblank rd) (read_prefix rd uploaded_files))
    /\ Forall (fun r => App.matched_skills r = [] /\ App.skill_gaps r = []) rows
    /\ forall df,
         snd (App.analysis rd db cos_sim sort_values category role_ uploaded_files store)
           = Ok (App.ranked_table df) ->
         Forall (fun r => App.r_Matched_Skills r = [] /\ App.r_Skill_Gaps r = []) df.
Proof.
  pose proof (analysis_run rd db cos_sim sort_values category role_ uploaded_files store) as R.
  cbv zeta in R. rewrite R. clear R. cbn [fst snd].
  rewrite (dict_get_missing ROLE_SKILLS role_ [] Missing).
  change (extract_skills_from_jd db []) with (@nil str).
  eexists. split; [reflexivity|]. split; [apply length_map|]. split.
  - apply Forall_forall. intros r Hr. apply in_map_iff in Hr as (f & <- & _).
    split; reflexivity.
  - intros df H. destruct uploaded_files as [|f0 rest]; [discriminate|].
    destruct (first_error rd (f0 :: rest)); [discriminate|].
    destruct (truthy _); [|discriminate]. injection H as <-.
    apply Forall_forall. intros r Hr.
    apply (Permutation_in _ (sorts _)) in Hr.
    apply in_map_iff in Hr as (f & <- & _). split; reflexivity.
Qed.

Lemma role_without_description_witness :
  In (lit "Data Analyst") (dict_get JOB_CATEGORIES (lit "Data & Analytics") [])
  /\ exists rows,
       fst (App.analysis Instances.text_readers UcdExcerpt.excerpt
              (fun _ _ => Float.Finite 1) Instances.sort_desc
              (lit "Data & Analytics") (lit "Data Analyst")
              [Upload (lit "cv.txt") (lit "sql and python")] [])
       = rows
       /\ map App.skill_gaps rows = [[]] /\ map App.matched_skills rows = [[]].
Proof.
  split; [right; left; reflexivity|].
  assert (Missing : ~ has_key ROLE_SKILLS (lit "Data Analyst")).
  { intros [v H]. simpl in H.
    repeat (destruct H as [H|H]; [discriminate|]). contradiction. }
  destruct (role_without_description Instances.text_readers UcdExcerpt.excerpt
              (fun _ _ => Float.Finite 1) Instances.sort_desc sort_desc_perm
              (lit "Data & Analytics") (lit "Data Analyst")
              [Upload (lit "cv.txt") (lit "sql and python")] [] Missing)
    as (rows & E & L & F & _).
  exists rows. split; [exact E|].
  destruct rows as [|r [|r' rows]]; try discriminate L.
  inversion F as [|r0 l0 [M G] _]; subst. simpl. rewrite M, G. split; reflexivity.
Defined.

(** ** Skill gaps written as a string and read back *)

Lemma split_comma_piece (t : str) :
  (forall c, In c t -> is_char "," c = false) ->
  forall acc rest,
    App.split_comma acc (t ++ rest) = App.split_comma (rev t ++ acc) rest.
Proof.
  induction t as [|c t IH]; intros H acc rest; simpl; [reflexivity|].
  rewrite (H c) by (left; reflexivity).
  rewrite IH by (intros c' Hc'; apply H; right; exact Hc').
  rewrite <- app_assoc. reflexivity.
Qed.

(** The pieces between the commas of a joined token list: the first
    token, and every further token behind one space. *)
Lemma split_comma_join (l : list str) :
  Forall (fun t => forall c, In c t -> is_char "," c = false) l ->
  forall t acc, (forall c, In c t -> is_char "," c = false) ->
    App.split_comma acc (join (lit ", ") (t :: l))
    = (rev acc ++ t) :: map (cons (cp " ")) l.
Proof.
  induction 1 as [|t' l Ht' Hl IH]; intros t acc Ht.
  - simpl join. rewrite <- (app_nil_r t) at 1.
    rewrite (split_comma_piece t Ht). simpl. rewrite rev_app_distr, rev_involutive.
    reflexivity.
  - change (join (lit ", ") (t :: t' :: l))
      with (t ++ cp "," :: cp " " :: join (lit ", ") (t' :: l)).
    rewrite (split_comma_piece t Ht). simpl App.split_comma at 1.
    change (is_char "," (cp ",")) with true. cbv iota.
    rewrite rev_app_distr, rev_involutive.
    simpl App.split_comma at 1. change (is_char "," (cp " ")) with false. cbv iota.
    f_equal. exact (IH t' [cp " "] Ht').
Qed.

Lemma strip_after_space (t : str) :
  (forall c, In c t -> isspace c = false) -> strip (cp " " :: t) = t.
Proof.
  intros H. unfold strip. simpl lstrip. change (isspace (cp " ")) with true. cbv iota.
  apply (strip_id t H).
Qed.

(** Tokens without commas and white space, none of them empty, come back
    from their comma-joined string. *)
Lemma split_join (l : list str) :
  Forall (fun t => t <> [] /\ forall c, In c t -> isspace c = false /\ is_char "," c = false) l ->
  flat_map (fun gap => if truthy (strip gap) then [strip gap] else [])
    (App.split_comma [] (join (lit ", ") l)) = l.
Proof.
  intros H. destruct l as [|t l]; [reflexivity|].
  inversion H as [|t0 l0 [Nt Ht] Hl]; subst.
  rewrite split_comma_join.
  - simpl. rewrite strip_id by (intros c Hc; apply Ht; exact Hc).
    destruct t as [|c t]; [congruence|]. simpl. f_equal.
    clear - Hl. induction Hl as [|t' l [Nt' Ht'] Hl IH]; simpl; [reflexivity|].
    rewrite strip_after_space by (intros c Hc; apply Ht'; exact Hc).
    destruct t' as [|c t']; [congruence|]. simpl. f_equal. exact IH.
  - eapply Forall_impl; [|exact Hl]. intros t' [_ Ht'] c Hc. apply Ht'; exact Hc.
  - intros c Hc. apply Ht; exact Hc.
Qed.

Lemma lower_token_clean (t : str) :
  lower_token t ->
  t <> [] /\ forall c, In c t -> isspace c = false /\ is_char "," c = false.
Proof.
  intros [[Hlen _] H]. split.
  - intros ->. simpl in Hlen. lia.
  - intros c Hc. specialize (H c Hc). split.
    + apply lower_token_char. exact H.
    + apply not_true_is_false. intros C. destruct H as [H|[->| ->]]; chars.
Qed.

Lemma gaps_of_clean (rd : readers) (db : ucd) (jd_text : str) (f : upload) :
  Forall (fun t => t <> [] /\ forall c, In c t -> isspace c = false /\ is_char "," c = false)
    (gaps_of rd db (extract_skills_from_jd db jd_text) f).
Proof.
  apply Forall_forall. intros t H. apply lower_token_clean.
  unfold gaps_of, detect_skill_gaps in H. simpl in H. apply filter_In in H as [H _].
  apply (extract_skills_from_jd_tokens db jd_text t H).
Qed.

Lemma gaps_of_rows_read_back (rd : readers) (db : ucd) (jd_text : str)
    (gaps_string : upload -> str) (l : list upload) :
  (forall f, gaps_string f
             = join (lit ", ") (gaps_of rd db (extract_skills_from_jd db jd_text) f)) ->
  flat_map (fun gaps =>
      flat_map (fun gap => if truthy (strip gap) then [strip gap] else [])
        (App.split_comma [] gaps)) (map gaps_string l)
  = flat_map (gaps_of rd db (extract_skills_from_jd db jd_text)) l.
Proof.
  intros H. induction l as [|f l IH]; [reflexivity|].
  cbn [map flat_map]. rewrite H, split_join by apply gaps_of_clean. f_equal. exact IH.
Qed.

(** X11. The skill gaps survive the way through the table: the analysis
    writes the gaps of each resume as one string joined with a comma and a
    space, and what the admin panel reads back from the stored rows by
    splitting at commas and stripping is exactly the gap tokens of the
    files analysed, in upload order and in job-token order within a file,
    with repetitions, behind those of the rows stored before.  The
    dashboard reads the same tokens from the table shown, file by file in
    the order of that table. *)
Theorem gaps_read_back (rd : readers) (db : ucd) (cos_sim : str -> str -> Float.float)
    (sort_values : list App.ranked -> list App.ranked)
    (sorts : forall l, Permutation (sort_values l) l)
    (category role_ : str) (uploaded_files : list upload)
    (store : list App.candidate) :
  App.gap_skills_of
    (fst (App.analysis rd db cos_sim sort_values category role_ uploaded_files store))
  = App.gap_skills_of store
    ++ flat_map (gaps_of rd db (extract_skills_from_jd db (dict_get ROLE_SKILLS role_ [])))
         (filter (nonblank rd) (read_prefix rd uploaded_files))
  /\ forall df,
       snd (App.analysis rd db cos_sim sort_values category role_ uploaded_files store)
         = Ok (App.ranked_table df) ->
       exists order,
         Permutation order (filter (nonblank rd) uploaded_files)
         /\ map App.r_Resume df = map file_name order
         /\ App.all_gaps_of df
            = flat_map
                (gaps_of rd db (extract_skills_from_jd db (dict_get ROLE_SKILLS role_ [])))
                order.
Proof.
  pose proof (analysis_run rd db cos_sim sort_values category role_ uploaded_files store) as R.
  cbv zeta in R. rewrite R. clear R. cbn [fst snd]. split.
  - unfold App.gap_skills_of at 1. rewrite flat_map_app. f_equal.
    rewrite <- (gaps_of_rows_read_back rd db (dict_get ROLE_SKILLS role_ [])
                  (fun f => join (lit ", ")
                     (gaps_of rd db (extract_skills_from_jd db (dict_get ROLE_SKILLS role_ [])) f)))
      by reflexivity.
    rewrite !flat_map_concat_map, !map_map. reflexivity.
  - intros df H. destruct uploaded_files as [|f0 rest]; [discriminate|].
    destruct (first_error rd (f0 :: rest)); [discriminate|].
    destruct (truthy _); [|discriminate]. injection H as <-.
    match goal with |- context [sort_values (map ?g ?l)] =>
      destruct (Permutation_map_inv g _ (sorts (map g l))) as (order & E & P) end.
    exists order. split; [symmetry; exact P|]. rewrite E. split.
    + rewrite map_map. reflexivity.
    + unfold App.all_gaps_of. rewrite map_map.
      apply (gaps_of_rows_read_back rd db (dict_get ROLE_SKILLS role_ [])
               (fun f => App.r_Skill_Gaps
                  (shown_row rd db cos_sim (dict_get ROLE_SKILLS role_ [])
                     (extract_skills_from_jd db (dict_get ROLE_SKILLS role_ [])) f))).
      reflexivity.
Qed.

Lemma gaps_read_back_witness :
  exists rows df,
    App.analysis Instances.text_readers UcdExcerpt.excerpt
      (fun _ text => if eqb text (lit "Ann Lee knows aws and docker")
                     then Float.Finite (1 # 4) else Float.Finite (3 # 4))
      Instances.sort_desc (lit "Cloud & DevOps") (lit "DevOps Engineer")
      [Upload (lit "a.txt") (lit "Ann Lee knows aws and docker");
       Upload (lit "b.txt") (lit "Bob Ray knows linux")] []
    = (rows, Ok (App.ranked_table df))
    /\ App.gap_skills_of rows
       = [lit "kubernetes"; lit "linux"; lit "ci"; lit "cd";
          lit "aws"; lit "docker"; lit "kubernetes"; lit "ci"; lit "cd"]
    /\ App.all_gaps_of df
       = [lit "aws"; lit "docker"; lit "kubernetes"; lit "ci"; lit "cd";
          lit "kubernetes"; lit "linux"; lit "ci"; lit "cd"].
Proof.
  pose proof (gaps_read_back Instances.text_readers UcdExcerpt.excerpt
      (fun _ text => if eqb text (lit "Ann Lee knows aws and docker")
                     then Float.Finite (1 # 4) else Float.Finite (3 # 4))
      Instances.sort_desc sort_desc_perm (lit "Cloud & DevOps") (lit "DevOps Engineer")
      [Upload (lit "a.txt") (lit "Ann Lee knows aws and docker");
       Upload (lit "b.txt") (lit "Bob Ray knows linux")] []) as [G D].
  eexists; eexists. split; [vm_compute; reflexivity|]. split.
  - vm_compute in G. vm_compute. exact G.
  - vm_compute. reflexivity.
Defined.

(** ** Tokens come from the text *)

(** X12. Every job token is a piece of the text, lowercased: the
    tokenization invents nothing and changes nothing but the letter case. *)
Theorem tokens_from_text (db : ucd) (jd_text tok : str)
    (H : In tok (extract_skills_from_jd db jd_text)) :
  exists m, substring m jd_text /\ tok = map to_lower_ascii m.
Proof.
  rewrite extract_skills_from_jd_scan in H. apply in_map_iff in H as (m & <- & Hm).
  exists m. split; [|reflexivity]. apply (findall_In _ _ _ Hm).
Qed.

Lemma tokens_from_text_witness :
  exists m, substring m (lit "Node, React") /\ lit "react" = map to_lower_ascii m.
Proof.
  apply (tokens_from_text UcdExcerpt.excerpt (lit "Node, React") (lit "react")).
  right; left; reflexivity.
Defined.

(** ** The table shown and the table stored *)

Lemma shown_stored_agree (rd : readers) (db : ucd) (cos_sim : str -> str -> Float.float)
    (category role_ jd_text : str) (jd_skills : list str) (l : list upload) :
  Forall2 agree (map (shown_row rd db cos_sim jd_text jd_skills) l)
    (map (stored_row rd db cos_sim category role_ jd_text jd_skills) l).
Proof.
  induction l as [|f l IH]; simpl; constructor; [|exact IH].
  repeat split.
Qed.

(** X13. When the analysis ends with a table, what it shows is what it
    stored: the rows of the table shown and the rows added to the stored
    table are the same in number and, once the stored rows are put in the
    order of the table shown, agree row by row in name, email, phone, file
    name, similarity, matched skills and skill gaps.  (The table shown is
    sorted by similarity; the rows are stored in upload order.) *)
Theorem shown_is_stored (rd : readers) (db : ucd) (cos_sim : str -> str -> Float.float)
    (sort_values : list App.ranked -> list App.ranked)
    (sorts : forall l, Permutation (sort_values l) l)
    (category role_ : str) (uploaded_files : list upload)
    (store : list App.candidate) (df : list App.ranked)
    (Shown : snd (App.analysis rd db cos_sim sort_values category role_ uploaded_files store)
             = Ok (App.ranked_table df)) :
  exists rows rows',
    fst (App.analysis rd db cos_sim sort_values category role_ uploaded_files store)
      = store ++ rows
    /\ Permutation rows' rows
    /\ Forall2 agree df rows'.
Proof.
  pose proof (analysis_run rd db cos_sim sort_values category role_ uploaded_files store) as R.
  cbv zeta in R. rewrite R in Shown |- *. clear R. cbn [fst snd] in *.
  destruct uploaded_files as [|f0 rest]; [discriminate|].
  destruct (first_error rd (f0 :: rest)) eqn:Fe; [discriminate|].
  destruct (truthy _); [|discriminate]. injection Shown as <-.
  rewrite (read_prefix_all rd _ Fe).
    match goal with |- context [sort_values (map ?g ?l)] =>
      destruct (Permutation_map_inv g _ (sorts (map g l))) as (order & E & P) end.
  eexists. exists (map (stored_row rd db cos_sim category role_ (dict_get ROLE_SKILLS role_ [])
                          (extract_skills_from_jd db (dict_get ROLE_SKILLS role_ []))) order).
  split; [reflexivity|]. split.
  - apply Permutation_map. symmetry. exact P.
  - rewrite E. apply shown_stored_agree.
Qed.

Lemma shown_is_stored_witness :
  exists rows rows',
    fst (App.analysis Instances.text_readers UcdExcerpt.excerpt
           (fun _ text => if eqb text (lit "Ann Lee knows sql")
                          then Float.Finite (1 # 4) else Float.Finite (3 # 4))
           Instances.sort_desc (lit "Data & Analytics") (lit "Data Scientist")
           [Upload (lit "a.txt") (lit "Ann Lee knows sql");
            Upload (lit "b.txt") (lit "Bob Ray knows python")] [])
    = rows
    /\ Permutation rows' rows
    /\ map App.filename rows = [lit "a.txt"; lit "b.txt"]
    /\ map App.filename rows' = [lit "b.txt"; lit "a.txt"].
Proof.
  destruct (shown_is_stored Instances.text_readers UcdExcerpt.excerpt
           (fun _ text => if eqb text (lit "Ann Lee knows sql")
                          then Float.Finite (1 # 4) else Float.Finite (3 # 4))
           Instances.sort_desc sort_desc_perm (lit "Data & Analytics") (lit "Data Scientist")
           [Upload (lit "a.txt") (lit "Ann Lee knows sql");
            Upload (lit "b.txt") (lit "Bob Ray knows python")] []
           _ ltac:(vm_compute; reflexivity))
    as (rows & rows' & E & P & A).
  exists rows, rows'. split; [exact E|]. split; [exact P|].
  split.
  - vm_compute in E. rewrite <- E. reflexivity.
  - inversion A as [|r1 c1 l1 l1' A1 A2]; subst.
    inversion A2 as [|r2 c2 l2 l2' A3 A4]; subst.
    inversion A4; subst.
    destruct A1 as (_ & _ & _ & F1 & _). destruct A3 as (_ & _ & _ & F2 & _).
    simpl. rewrite <- F1, <- F2. reflexivity.
Defined.
